(** * Bulk dispatch of memo transactions: a shallow embedding

    The development follows [src/messageSender.ts], [src/config.ts],
    [src/fileUtils.ts], [src/walletUtils.ts] and [src/types.ts].

    - An [await]ed computation is a function from the state of the run to a
      completion (normal value, thrown value, or [break]) and a new state.
    - The ledger SDK (@solana/web3.js), the file system and the timer are
      outside the repository: the SDK's types and pure functions are the
      fields of the class [Web3], the answers of the network are an oracle
      indexed by the ordinal of the operation, and every invocation of a
      single send operation and every [setTimeout] is recorded in a trace.
    - The bulk methods reach the single operations through [this]; the
      loops are therefore stated over any pair of methods ([Sender]), of
      which the class of the repository ([SolanaMessageSender]) is one.
    - Numbers of milliseconds are integers, counters are naturals.
    - A string is modelled by its UTF-8 encoding, one character of the
      model per byte.
    - Console output is not observable in the model. *)

From Stdlib Require Import ZArith Lia Bool Ascii String.
From stdpp Require Import base list strings.

Local Open Scope string_scope.

(** ** Completions and the two monads *)

(** A thrown JavaScript value: an instance of [Error] carrying its message,
    or any other value. *)
Inductive Thrown : Type :=
  | ErrorInstance (message : string)
  | OtherValue.

(** [error instanceof Error ? error.message : "Unknown error"] *)
Definition errorMessageOf (error : Thrown) : string :=
  match error with
  | ErrorInstance message => message
  | OtherValue => "Unknown error"
  end.

(** A settled promise, or the outcome of a call that may throw. *)
Inductive Settled (A : Type) : Type :=
  | Fulfilled (a : A)
  | Rejected (error : Thrown).
Arguments Fulfilled {A} a.
Arguments Rejected {A} error.

(** How a statement that runs in a loop completes: normally, by throwing,
    or by [break]. *)
Inductive Completion (A : Type) : Type :=
  | Normal (a : A)
  | Throw (error : Thrown)
  | Break.
Arguments Normal {A} a.
Arguments Throw {A} error.
Arguments Break {A}.

Class Monad (m : Type -> Type) : Type := {
  ret : forall {A}, A -> m A;
  bind : forall {A B}, m A -> (A -> m B) -> m B;
  throw : forall {A}, Thrown -> m A;
  tryCatch : forall {A}, m A -> (Thrown -> m A) -> m A
}.

(** [await p], and a call of a function that may throw. *)
Definition await {m} `{Monad m} {A} (p : Settled A) : m A :=
  match p with
  | Fulfilled a => ret a
  | Rejected error => throw error
  end.

Declare Scope js_scope.
Delimit Scope js_scope with js.
Notation "x <- c ;; k" := (bind c (fun x => k))
  (at level 100, c at next level, right associativity) : js_scope.
Notation "c ;; k" := (bind c (fun _ => k))
  (at level 100, k at level 200, right associativity) : js_scope.
Local Open Scope js_scope.

(** Code without state: a computation is its own outcome. *)
#[export] Instance Settled_Monad : Monad Settled := {
  ret := fun A a => Fulfilled a;
  bind := fun A B c k =>
    match c with
    | Fulfilled a => k a
    | Rejected error => Rejected error
    end;
  throw := fun A error => Rejected error;
  tryCatch := fun A c handler =>
    match c with
    | Fulfilled a => Fulfilled a
    | Rejected error => handler error
    end
}.

(** ** The external SDK *)

Inductive Commitment : Type := processed | confirmed | finalized.

Class Web3 : Type := {
  PublicKey : Type;
  Keypair : Type;
  Connection : Type;
  toBase58 : PublicKey -> string;
  keypairPublicKey : Keypair -> PublicKey;
  (** [new PublicKey(address)] throws on a string that is no address. *)
  newPublicKey : string -> Settled PublicKey
}.

(** ** types.ts *)

Record TransactionResult : Type := {
  tr_signature : string;
  tr_success : bool;
  tr_error : option string;
  tr_explorerUrl : option string
}.

Record SolanaConfig : Type := {
  sc_rpcUrl : string;
  sc_wsUrl : string;
  sc_network : string;
  sc_commitment : Commitment;
  sc_skipPreflight : bool;
  sc_walletPath : option string;
  sc_privateKey : option string
}.

Record BulkTransactionResult : Type := {
  recipientAddress : string;
  signature : string;
  success : bool;
  error : option string;
  explorerUrl : option string
}.

Record BulkMessageResult : Type := {
  totalSent : nat;
  totalFailed : nat;
  results : list BulkTransactionResult;
  overallSuccess : bool
}.

Section Sender.
Context `{Web3}.

Record MessageConfig : Type := {
  mc_message : string;
  mc_recipientAddress : PublicKey;
  mc_senderKeypair : Keypair;
  mc_connection : option Connection;
  mc_commitment : option Commitment;
  mc_skipPreflight : option bool
}.

(** [Omit<MessageConfig, "recipientAddress">] *)
Record MemoConfig : Type := {
  memo_message : string;
  memo_senderKeypair : Keypair;
  memo_connection : option Connection;
  memo_commitment : option Commitment;
  memo_skipPreflight : option bool
}.

Record BulkMessageConfig : Type := {
  message : string;
  recipientAddresses : list PublicKey;
  senderKeypair : Keypair;
  connection : option Connection;
  commitment : option Commitment;
  skipPreflight : option bool;
  delayBetweenTx : option Z;
  continueOnError : option bool
}.

(** [Omit<BulkMessageConfig, "recipientAddresses"> & { messages?: string[] }] *)
Record BulkMemoConfig : Type := {
  bm_message : string;
  bm_messages : option (list string);
  bm_senderKeypair : Keypair;
  bm_connection : option Connection;
  bm_commitment : option Commitment;
  bm_skipPreflight : option bool;
  bm_delayBetweenTx : option Z;
  bm_continueOnError : option bool
}.

(** [FileRecipientConfig extends Omit<BulkMessageConfig, "recipientAddresses">] *)
Record FileRecipientConfig : Type := {
  fr_message : string;
  fr_recipientsFile : string;
  fr_senderKeypair : Keypair;
  fr_connection : option Connection;
  fr_commitment : option Commitment;
  fr_skipPreflight : option bool;
  fr_delayBetweenTx : option Z;
  fr_continueOnError : option bool
}.

Record FileValidationResult : Type := {
  isValid : bool;
  addresses : list string;
  validAddresses : list PublicKey;
  invalidAddresses : list string;
  fv_error : option string
}.

(** Truthiness of an optional boolean: [undefined] and [false] are falsy. *)
Definition truthyBool (b : option bool) : bool :=
  match b with Some true => true | _ => false end.

(** ** The transaction handed to the SDK *)

Inductive Instruction : Type :=
  | MemoInstruction (programId : string) (data : string)
  | TransferInstruction (fromPubkey toPubkey : PublicKey) (lamports : Z).

Record Transaction : Type := {
  instructions : list Instruction;
  recentBlockhash : string;
  feePayer : PublicKey
}.

Record ConfirmOptions : Type := {
  co_commitment : Commitment;
  co_skipPreflight : bool
}.

(** The network as seen through the SDK. The first argument is the ordinal
    of the send operation during which the request is made. *)
Record Network : Type := {
  getLatestBlockhash : nat -> Connection -> Settled string;
  sendAndConfirmTransaction :
    nat -> Connection -> Transaction -> list Keypair -> ConfirmOptions ->
    Settled string
}.

(** ** config.ts *)

Definition getExplorerUrl (signature : string) (network : string) : string :=
  let cluster :=
    if String.eqb network "mainnet-beta" then "" else "?cluster=" ++ network in
  "https://explorer.solana.com/tx/" ++ signature ++ cluster.

(** ** messageSender.ts: the single operations *)

Definition memoProgramId : string := "MemoSq4gqABAXKb96qnH8TysNcWxMyWCqXgDLGmfcHr".

(** The fields of a [SolanaMessageSender] object. *)
Record SenderFields : Type := {
  this_connection : Connection;
  this_config : SolanaConfig
}.

Definition sendMessage (net : Network) (this : SenderFields)
    (n : nat) (config : MessageConfig) : Settled TransactionResult :=
  tryCatch
    (let connection := default (this_connection this) (mc_connection config) in
     let memoInstruction := MemoInstruction memoProgramId (mc_message config) in
     let transferInstruction :=
       TransferInstruction (keypairPublicKey (mc_senderKeypair config))
         (mc_recipientAddress config) 1000 in
     blockhash <- await (getLatestBlockhash net n connection) ;;
     let transaction :=
       {| instructions := [memoInstruction; transferInstruction];
          recentBlockhash := blockhash;
          feePayer := keypairPublicKey (mc_senderKeypair config) |} in
     signature <- await (sendAndConfirmTransaction net n connection transaction
         [mc_senderKeypair config]
         {| co_commitment :=
              default (sc_commitment (this_config this)) (mc_commitment config);
            co_skipPreflight :=
              truthyBool (mc_skipPreflight config)
              || sc_skipPreflight (this_config this) |}) ;;
     let explorerUrl := getExplorerUrl signature (sc_network (this_config this)) in
     ret {| tr_signature := signature;
            tr_success := true;
            tr_error := None;
            tr_explorerUrl := Some explorerUrl |})
    (fun error =>
     ret {| tr_signature := "";
            tr_success := false;
            tr_error := Some (errorMessageOf error);
            tr_explorerUrl := None |}).

Definition sendMemoOnly (net : Network) (this : SenderFields)
    (n : nat) (config : MemoConfig) : Settled TransactionResult :=
  tryCatch
    (let connection := default (this_connection this) (memo_connection config) in
     let memoInstruction := MemoInstruction memoProgramId (memo_message config) in
     blockhash <- await (getLatestBlockhash net n connection) ;;
     let transaction :=
       {| instructions := [memoInstruction];
          recentBlockhash := blockhash;
          feePayer := keypairPublicKey (memo_senderKeypair config) |} in
     signature <- await (sendAndConfirmTransaction net n connection transaction
         [memo_senderKeypair config]
         {| co_commitment :=
              default (sc_commitment (this_config this)) (memo_commitment config);
            co_skipPreflight :=
              truthyBool (memo_skipPreflight config)
              || sc_skipPreflight (this_config this) |}) ;;
     let explorerUrl := getExplorerUrl signature (sc_network (this_config this)) in
     ret {| tr_signature := signature;
            tr_success := true;
            tr_error := None;
            tr_explorerUrl := Some explorerUrl |})
    (fun error =>
     ret {| tr_signature := "";
            tr_success := false;
            tr_error := Some (errorMessageOf error);
            tr_explorerUrl := None |}).

(** ** The state of a run *)

(** What the outside world can observe of a bulk run. *)
Inductive Event : Type :=
  | SendMessageCall (config : MessageConfig)
  | SendMemoOnlyCall (config : MemoConfig)
  | SetTimeout (ms : Z).

(** [st_calls] counts the single operations invoked so far and [st_trace]
    lists the events, oldest first. The other fields are the local variables
    [results], [totalSent] and [totalFailed] of the bulk method in progress. *)
Record State : Type := {
  st_calls : nat;
  st_trace : list Event;
  st_results : list BulkTransactionResult;
  st_totalSent : nat;
  st_totalFailed : nat
}.

Definition M (A : Type) : Type := State -> Completion A * State.

#[export] Instance M_Monad : Monad M := {
  ret := fun A a st => (Normal a, st);
  bind := fun A B c k st =>
    match c st with
    | (Normal a, st') => k a st'
    | (Throw error, st') => (Throw error, st')
    | (Break, st') => (Break, st')
    end;
  throw := fun A error st => (Throw error, st);
  tryCatch := fun A c handler st =>
    match c st with
    | (Throw error, st') => handler error st'
    | other => other
    end
}.

Definition break : M unit := fun st => (Break, st).

Definition when (b : bool) (c : M unit) : M unit :=
  if b then c else ret tt.

(** [for (let i = i0; i < xs.length; i++) { const x = xs[i]; body }], entered
    with [pending] the elements of [xs] from index [i0] on. *)
Fixpoint forFrom {T} (i : nat) (pending : list T) (body : nat -> T -> M unit)
    : M unit :=
  match pending with
  | [] => ret tt
  | x :: rest => fun st =>
      match body i x st with
      | (Normal _, st') => forFrom (S i) rest body st'
      | (Break, st') => (Normal tt, st')
      | (Throw error, st') => (Throw error, st')
      end
  end.

Definition recordEvent (e : Event) (st : State) : State :=
  {| st_calls := st_calls st;
     st_trace := st_trace st ++ [e];
     st_results := st_results st;
     st_totalSent := st_totalSent st;
     st_totalFailed := st_totalFailed st |}.

Definition countCall (st : State) : State :=
  {| st_calls := S (st_calls st);
     st_trace := st_trace st;
     st_results := st_results st;
     st_totalSent := st_totalSent st;
     st_totalFailed := st_totalFailed st |}.

(** [await new Promise((resolve) => setTimeout(resolve, ms))] *)
Definition sleep (ms : Z) : M unit :=
  fun st => (Normal tt, recordEvent (SetTimeout ms) st).

(** [const results = []; let totalSent = 0; let totalFailed = 0] *)
Definition declareLocals : M unit :=
  fun st => (Normal tt,
    {| st_calls := st_calls st;
       st_trace := st_trace st;
       st_results := [];
       st_totalSent := 0;
       st_totalFailed := 0 |}).

(** [totalSent++] *)
Definition incTotalSent : M unit :=
  fun st => (Normal tt,
    {| st_calls := st_calls st;
       st_trace := st_trace st;
       st_results := st_results st;
       st_totalSent := S (st_totalSent st);
       st_totalFailed := st_totalFailed st |}).

(** [totalFailed++] *)
Definition incTotalFailed : M unit :=
  fun st => (Normal tt,
    {| st_calls := st_calls st;
       st_trace := st_trace st;
       st_results := st_results st;
       st_totalSent := st_totalSent st;
       st_totalFailed := S (st_totalFailed st) |}).

(** [results.push(r)] *)
Definition pushResult (r : BulkTransactionResult) : M unit :=
  fun st => (Normal tt,
    {| st_calls := st_calls st;
       st_trace := st_trace st;
       st_results := st_results st ++ [r];
       st_totalSent := st_totalSent st;
       st_totalFailed := st_totalFailed st |}).

Definition getState : M State := fun st => (Normal st, st).

(** ** messageSender.ts: the bulk methods *)

(** The two methods that the bulk loops reach through [this]. A method is
    given by the promise it returns at its [n]-th invocation. *)
Record Sender : Type := {
  sendMessageMethod : nat -> MessageConfig -> Settled TransactionResult;
  sendMemoOnlyMethod : nat -> MemoConfig -> Settled TransactionResult
}.

(** The class of the repository. *)
Definition SolanaMessageSender (net : Network) (fields : SenderFields) : Sender :=
  {| sendMessageMethod := sendMessage net fields;
     sendMemoOnlyMethod := sendMemoOnly net fields |}.

(** [await this.sendMessage(config)] *)
Definition callSendMessage (this : Sender) (config : MessageConfig)
    : M TransactionResult :=
  fun st =>
    await (sendMessageMethod this (st_calls st) config)
      (countCall (recordEvent (SendMessageCall config) st)).

(** [await this.sendMemoOnly(config)] *)
Definition callSendMemoOnly (this : Sender) (config : MemoConfig)
    : M TransactionResult :=
  fun st =>
    await (sendMemoOnlyMethod this (st_calls st) config)
      (countCall (recordEvent (SendMemoOnlyCall config) st)).

(** The body of the loop of [sendBulkMessages]. *)
Definition sendBulkMessagesBody (this : Sender) (config : BulkMessageConfig)
    (i : nat) (recipient : PublicKey) : M unit :=
  let recipientAddress := toBase58 recipient in
  tryCatch
    (result <- callSendMessage this
        {| mc_message := message config;
           mc_recipientAddress := recipient;
           mc_senderKeypair := senderKeypair config;
           mc_connection := connection config;
           mc_commitment := commitment config;
           mc_skipPreflight := skipPreflight config |} ;;
     (if tr_success result then
        incTotalSent ;;
        pushResult {| recipientAddress := recipientAddress;
                      signature := tr_signature result;
                      success := true;
                      error := None;
                      explorerUrl := tr_explorerUrl result |}
      else
        incTotalFailed ;;
        pushResult {| recipientAddress := recipientAddress;
                      signature := "";
                      success := false;
                      error := tr_error result;
                      explorerUrl := None |} ;;
        when (negb (truthyBool (continueOnError config))) break) ;;
     match delayBetweenTx config with
     | Some ms =>
         when (negb (ms =? 0)%Z
               && (Z.of_nat i <? Z.of_nat (length (recipientAddresses config)) - 1)%Z)
           (sleep ms)
     | None => ret tt
     end)
    (fun error =>
     incTotalFailed ;;
     let errorMessage := errorMessageOf error in
     pushResult {| recipientAddress := recipientAddress;
                   signature := "";
                   success := false;
                   error := Some errorMessage;
                   explorerUrl := None |} ;;
     when (negb (truthyBool (continueOnError config))) break).

Definition sendBulkMessages (this : Sender) (config : BulkMessageConfig)
    : M BulkMessageResult :=
  declareLocals ;;
  forFrom 0 (recipientAddresses config) (sendBulkMessagesBody this config) ;;
  st <- getState ;;
  let overallSuccess := (st_totalFailed st =? 0)%nat in
  ret {| totalSent := st_totalSent st;
         totalFailed := st_totalFailed st;
         results := st_results st;
         overallSuccess := overallSuccess |}.

(** The body of the loop of [sendBulkMemoOnly]; [messages] is the list the
    method iterates over. *)
Definition sendBulkMemoOnlyBody (this : Sender) (config : BulkMemoConfig)
    (messages : list string) (i : nat) (message : string) : M unit :=
  tryCatch
    (result <- callSendMemoOnly this
        {| memo_message := message;
           memo_senderKeypair := bm_senderKeypair config;
           memo_connection := bm_connection config;
           memo_commitment := bm_commitment config;
           memo_skipPreflight := bm_skipPreflight config |} ;;
     (if tr_success result then
        incTotalSent ;;
        pushResult {| recipientAddress := "memo-only";
                      signature := tr_signature result;
                      success := true;
                      error := None;
                      explorerUrl := tr_explorerUrl result |}
      else
        incTotalFailed ;;
        pushResult {| recipientAddress := "memo-only";
                      signature := "";
                      success := false;
                      error := tr_error result;
                      explorerUrl := None |} ;;
        when (negb (truthyBool (bm_continueOnError config))) break) ;;
     match bm_delayBetweenTx config with
     | Some ms =>
         when (negb (ms =? 0)%Z
               && (Z.of_nat i <? Z.of_nat (length messages) - 1)%Z)
           (sleep ms)
     | None => ret tt
     end)
    (fun error =>
     incTotalFailed ;;
     let errorMessage := errorMessageOf error in
     pushResult {| recipientAddress := "memo-only";
                   signature := "";
                   success := false;
                   error := Some errorMessage;
                   explorerUrl := None |} ;;
     when (negb (truthyBool (bm_continueOnError config))) break).

Definition sendBulkMemoOnly (this : Sender) (config : BulkMemoConfig)
    : M BulkMessageResult :=
  let messages := default [bm_message config] (bm_messages config) in
  declareLocals ;;
  forFrom 0 messages (sendBulkMemoOnlyBody this config messages) ;;
  st <- getState ;;
  let overallSuccess := (st_totalFailed st =? 0)%nat in
  ret {| totalSent := st_totalSent st;
         totalFailed := st_totalFailed st;
         results := st_results st;
         overallSuccess := overallSuccess |}.

(** ** walletUtils.ts *)

Definition isValidPublicKey (address : string) : bool :=
  match tryCatch (_ <- await (newPublicKey address) ;; ret true)
                 (fun _ => ret false) with
  | Fulfilled b => b
  | Rejected _ => false
  end.

Definition toPublicKey (address : string) : Settled PublicKey :=
  if negb (isValidPublicKey address) then
    throw (ErrorInstance ("Invalid Solana address: " ++ address))
  else
    await (newPublicKey address).

(** ** fileUtils.ts *)

(** A string of the program is modelled by its UTF-8 encoding, one [ascii]
    per byte. [String.prototype.trim] removes the white space and line
    terminator code points of ECMAScript. These are U+0009 to U+000D and
    U+0020, of one byte each; U+00A0, of the two bytes C2 A0; and, of three
    bytes each, U+1680 (E1 9A 80), U+2000 to U+200A (E2 80 80 to E2 80 8A),
    U+2028 and U+2029 (E2 80 A8, E2 80 A9), U+202F (E2 80 AF), U+205F
    (E2 81 9F), U+3000 (E3 80 80) and U+FEFF (EF BB BF). *)
Definition isWhiteSpace1 (a : nat) : bool :=
  ((9 <=? a) && (a <=? 13) || (a =? 32))%nat.

Definition isWhiteSpace2 (a b : nat) : bool :=
  ((a =? 194) && (b =? 160))%nat.

Definition isWhiteSpace3 (a b c : nat) : bool :=
  ((a =? 225) && (b =? 154) && (c =? 128)
   || (a =? 226) && (b =? 128)
      && ((128 <=? c) && (c <=? 138) || (c =? 168) || (c =? 169) || (c =? 175))
   || (a =? 226) && (b =? 129) && (c =? 159)
   || (a =? 227) && (b =? 128) && (c =? 128)
   || (a =? 239) && (b =? 187) && (c =? 191))%nat.

Definition newline : ascii := ascii_of_nat 10.

(** [s.split("\n")] *)
Fixpoint splitLines (s : string) : list string :=
  match s with
  | EmptyString => [EmptyString]
  | String c rest =>
      if Ascii.eqb c newline then EmptyString :: splitLines rest
      else match splitLines rest with
           | line :: lines => String c line :: lines
           | [] => [String c EmptyString]
           end
  end.

(** [s.trimStart()]: the white space code points at the start are dropped,
    one after the other. *)
Fixpoint trimStart (s : string) : string :=
  match s with
  | EmptyString => EmptyString
  | String a rest1 =>
      if isWhiteSpace1 (nat_of_ascii a) then trimStart rest1
      else
        match rest1 with
        | EmptyString => s
        | String b rest2 =>
            if isWhiteSpace2 (nat_of_ascii a) (nat_of_ascii b) then trimStart rest2
            else
              match rest2 with
              | EmptyString => s
              | String c rest3 =>
                  if isWhiteSpace3 (nat_of_ascii a) (nat_of_ascii b) (nat_of_ascii c)
                  then trimStart rest3
                  else s
              end
        end
  end.

(** The string consists of white space only. *)
Definition isBlank (s : string) : bool :=
  match trimStart s with
  | EmptyString => true
  | String _ _ => false
  end.

(** [s.trimEnd()]: the longest end of the string that is white space only is
    dropped. *)
Fixpoint trimEnd (s : string) : string :=
  match s with
  | EmptyString => EmptyString
  | String c rest => if isBlank s then EmptyString else String c (trimEnd rest)
  end.

(** [s.trim()] *)
Definition trim (s : string) : string := trimEnd (trimStart s).

(** [s.startsWith(p)] *)
Definition startsWith (p s : string) : bool := String.prefix p s.

(** [xs.join(sep)] *)
Definition join (sep : string) (xs : list string) : string := String.concat sep xs.

(** The file system: [access(path, constants.R_OK)] and
    [readFile(path, { encoding: "utf8" })]. *)
Record FileSystem : Type := {
  access : string -> Settled unit;
  readFile : string -> Settled string
}.

Definition checkRecipientsFile (fs : FileSystem) (filePath : string) : Settled bool :=
  tryCatch
    (await (access fs filePath) ;;
     ret true)
    (fun error => ret false).

(** The loop that sorts the lines into [validAddresses] and
    [invalidAddresses], from the two lists built so far. *)
Fixpoint validateAddresses (lines : list string)
    (validAddresses : list PublicKey) (invalidAddresses : list string)
    : list PublicKey * list string :=
  match lines with
  | [] => (validAddresses, invalidAddresses)
  | address :: rest =>
      match toPublicKey address with
      | Fulfilled publicKey =>
          validateAddresses rest (validAddresses ++ [publicKey]) invalidAddresses
      | Rejected _ =>
          validateAddresses rest validAddresses (invalidAddresses ++ [address])
      end
  end.

(** The non-empty, non-comment lines of a recipients file. *)
Definition recipientLines (fileContent : string) : list string :=
  List.filter
    (fun line => (0 <? String.length line)%nat && negb (startsWith "#" line))
    (map trim (splitLines fileContent)).

Definition readRecipientsFile (fs : FileSystem) (filePath : string)
    : Settled FileValidationResult :=
  tryCatch
    (fileExists <- checkRecipientsFile fs filePath ;;
     if negb fileExists then
       ret {| isValid := false;
              addresses := [];
              validAddresses := [];
              invalidAddresses := [];
              fv_error := Some ("Recipients file '" ++ filePath
                                ++ "' does not exist or is not readable") |}
     else
       fileContent <- await (readFile fs filePath) ;;
       let lines := recipientLines fileContent in
       if (length lines =? 0)%nat then
         ret {| isValid := false;
                addresses := [];
                validAddresses := [];
                invalidAddresses := [];
                fv_error := Some ("No valid addresses found in '" ++ filePath
                                  ++ "'. File is empty or contains only comments.") |}
       else
         let '(validAddresses, invalidAddresses) := validateAddresses lines [] [] in
         let isValid :=
           (length invalidAddresses =? 0)%nat && (0 <? length validAddresses)%nat in
         ret {| isValid := isValid;
                addresses := lines;
                validAddresses := validAddresses;
                invalidAddresses := invalidAddresses;
                fv_error :=
                  if (0 <? length invalidAddresses)%nat
                  then Some ("Invalid addresses found: " ++ join ", " invalidAddresses)
                  else None |})
    (fun error =>
     ret {| isValid := false;
            addresses := [];
            validAddresses := [];
            invalidAddresses := [];
            fv_error :=
              Some match error with
                   | ErrorInstance message => message
                   | OtherValue => "Unknown error reading recipients file"
                   end |}).

(** [validation.error || "Invalid recipients file"]: an absent or empty
    string is falsy. *)
Definition errorOrDefault (e : option string) : string :=
  match e with
  | Some EmptyString | None => "Invalid recipients file"
  | Some text => text
  end.

Definition validateRecipients (validation : FileValidationResult) : Settled unit :=
  if negb (isValid validation) then
    throw (ErrorInstance (errorOrDefault (fv_error validation)))
  else if (length (validAddresses validation) =? 0)%nat then
    throw (ErrorInstance "No valid addresses found in recipients file")
  else
    ret tt.

(** ** messageSender.ts: recipients from a file *)

Definition sendMessagesFromFile (fs : FileSystem) (this : Sender)
    (config : FileRecipientConfig) : M BulkMessageResult :=
  tryCatch
    (validation <- await (readRecipientsFile fs (fr_recipientsFile config)) ;;
     if negb (isValid validation) then
       ret {| totalSent := 0;
              totalFailed := 0;
              results := [];
              overallSuccess := false |}
     else
       await (validateRecipients validation) ;;
       let bulkConfig :=
         {| message := fr_message config;
            recipientAddresses := validAddresses validation;
            senderKeypair := fr_senderKeypair config;
            connection := fr_connection config;
            commitment := fr_commitment config;
            skipPreflight := fr_skipPreflight config;
            delayBetweenTx := fr_delayBetweenTx config;
            continueOnError := fr_continueOnError config |} in
       sendBulkMessages this bulkConfig)
    (fun error =>
     ret {| totalSent := 0;
            totalFailed := 0;
            results := [];
            overallSuccess := false |}).

(** ** Vocabulary of the statements *)

(** The argument of [this.sendMessage] for one recipient. *)
Definition messageConfigFor (config : BulkMessageConfig) (recipient : PublicKey)
    : MessageConfig :=
  {| mc_message := message config;
     mc_recipientAddress := recipient;
     mc_senderKeypair := senderKeypair config;
     mc_connection := connection config;
     mc_commitment := commitment config;
     mc_skipPreflight := skipPreflight config |}.

(** The argument of [this.sendMemoOnly] for one message. *)
Definition memoConfigFor (config : BulkMemoConfig) (message : string) : MemoConfig :=
  {| memo_message := message;
     memo_senderKeypair := bm_senderKeypair config;
     memo_connection := bm_connection config;
     memo_commitment := bm_commitment config;
     memo_skipPreflight := bm_skipPreflight config |}.

(** [config.messages || [config.message]] *)
Definition memoMessages (config : BulkMemoConfig) : list string :=
  default [bm_message config] (bm_messages config).

(** A single operation succeeded: its promise was fulfilled with
    [success: true]. It failed when it reported [success: false] or threw. *)
Definition succeeded (o : Settled TransactionResult) : bool :=
  match o with
  | Fulfilled result => tr_success result
  | Rejected _ => false
  end.

Definition isCall (e : Event) : bool :=
  match e with
  | SendMessageCall _ | SendMemoOnlyCall _ => true
  | SetTimeout _ => false
  end.

(** The single operations invoked, in the order of their invocation. *)
Definition callsOf (events : list Event) : list Event := List.filter isCall events.

(** [xs] with [sep] between any two neighbours, and nowhere else. *)
Fixpoint intersperse {A} (sep : A) (xs : list A) : list A :=
  match xs with
  | [] => []
  | x :: rest =>
      match rest with
      | [] => [x]
      | _ :: _ => x :: sep :: intersperse sep rest
      end
  end.

Definition successes (rs : list BulkTransactionResult) : nat :=
  length (List.filter success rs).

Definition failures (rs : list BulkTransactionResult) : nat :=
  length (List.filter (fun r => negb (success r)) rs).

(** ** One iteration as a function of the outcome of its operation

    Both loops run the same iteration up to the target written into the
    entry, the operation invoked and the list iterated over; [Loop] collects
    these. *)
Record Loop (T : Type) : Type := {
  loop_target : T -> string;
  loop_call : T -> Event;
  loop_outcome : nat -> T -> Settled TransactionResult;
  loop_continueOnError : option bool;
  loop_delayBetweenTx : option Z;
  loop_length : nat
}.
Arguments loop_target {T} _ _.
Arguments loop_call {T} _ _.
Arguments loop_outcome {T} _ _ _.
Arguments loop_continueOnError {T} _.
Arguments loop_delayBetweenTx {T} _.
Arguments loop_length {T} _.

Definition entryFor (target : string) (o : Settled TransactionResult)
    : BulkTransactionResult :=
  match o with
  | Fulfilled result =>
      if tr_success result then
        {| recipientAddress := target;
           signature := tr_signature result;
           success := true;
           error := None;
           explorerUrl := tr_explorerUrl result |}
      else
        {| recipientAddress := target;
           signature := "";
           success := false;
           error := tr_error result;
           explorerUrl := None |}
  | Rejected e =>
      {| recipientAddress := target;
         signature := "";
         success := false;
         error := Some (errorMessageOf e);
         explorerUrl := None |}
  end.

(** The loop is left after this operation. *)
Definition stopsAfter {T} (L : Loop T) (o : Settled TransactionResult) : bool :=
  negb (succeeded o) && negb (truthyBool (loop_continueOnError L)).

(** The timer set at the end of iteration [i]. *)
Definition pauseAfter {T} (L : Loop T) (i : nat) (o : Settled TransactionResult)
    : list Event :=
  match o, loop_delayBetweenTx L with
  | Fulfilled result, Some ms =>
      if (tr_success result || truthyBool (loop_continueOnError L))
         && negb (ms =? 0)%Z
         && (Z.of_nat i <? Z.of_nat (loop_length L) - 1)%Z
      then [SetTimeout ms] else []
  | _, _ => []
  end.

Definition afterIteration {T} (L : Loop T) (i : nat) (x : T) (st : State) : State :=
  let o := loop_outcome L (st_calls st) x in
  {| st_calls := S (st_calls st);
     st_trace := st_trace st ++ loop_call L x :: pauseAfter L i o;
     st_results := st_results st ++ [entryFor (loop_target L x) o];
     st_totalSent := if succeeded o then S (st_totalSent st) else st_totalSent st;
     st_totalFailed := if succeeded o then st_totalFailed st else S (st_totalFailed st) |}.

Fixpoint runFrom {T} (L : Loop T) (i : nat) (pending : list T) (st : State) : State :=
  match pending with
  | [] => st
  | x :: rest =>
      if stopsAfter L (loop_outcome L (st_calls st) x)
      then afterIteration L i x st
      else runFrom L (S i) rest (afterIteration L i x st)
  end.

Definition messagesLoop (this : Sender) (config : BulkMessageConfig) : Loop PublicKey :=
  {| loop_target := toBase58;
     loop_call := fun recipient => SendMessageCall (messageConfigFor config recipient);
     loop_outcome := fun n recipient =>
       sendMessageMethod this n (messageConfigFor config recipient);
     loop_continueOnError := continueOnError config;
     loop_delayBetweenTx := delayBetweenTx config;
     loop_length := length (recipientAddresses config) |}.

Definition memosLoop (this : Sender) (config : BulkMemoConfig) : Loop string :=
  {| loop_target := fun _ => "memo-only";
     loop_call := fun message => SendMemoOnlyCall (memoConfigFor config message);
     loop_outcome := fun n message =>
       sendMemoOnlyMethod this n (memoConfigFor config message);
     loop_continueOnError := bm_continueOnError config;
     loop_delayBetweenTx := bm_delayBetweenTx config;
     loop_length := length (memoMessages config) |}.

(** The locals of a bulk method, freshly declared. *)
Definition declared (st : State) : State :=
  {| st_calls := st_calls st;
     st_trace := st_trace st;
     st_results := [];
     st_totalSent := 0;
     st_totalFailed := 0 |}.

(** The value a bulk method returns from its locals. *)
Definition summary (st : State) : BulkMessageResult :=
  {| totalSent := st_totalSent st;
     totalFailed := st_totalFailed st;
     results := st_results st;
     overallSuccess := (st_totalFailed st =? 0)%nat |}.

(** The number of iterations executed over [pending] when the first of
    them is the [c]-th operation. *)
Fixpoint iterations {T} (L : Loop T) (c : nat) (pending : list T) : nat :=
  match pending with
  | [] => 0
  | x :: rest =>
      if stopsAfter L (loop_outcome L c x) then 1
      else S (iterations L (S c) rest)
  end.

(** The entries pushed for [xs] when all of [xs] is iterations. *)
Fixpoint entriesFrom {T} (L : Loop T) (c : nat) (xs : list T)
    : list BulkTransactionResult :=
  match xs with
  | [] => []
  | x :: rest =>
      entryFor (loop_target L x) (loop_outcome L c x) :: entriesFrom L (S c) rest
  end.

(** The events of processing all of [xs], from iteration [i] on. *)
Fixpoint eventsFrom {T} (L : Loop T) (c i : nat) (xs : list T) : list Event :=
  match xs with
  | [] => []
  | x :: rest =>
      (loop_call L x :: pauseAfter L i (loop_outcome L c x))
      ++ eventsFrom L (S c) (S i) rest
  end.

(** The first [k] iterations of the loop of [sendBulkMessages], after the
    declaration of its locals: the loop cut off after iteration [k - 1]. The
    body still sees the whole [config]. *)
Definition sendBulkMessagesUpTo (this : Sender) (config : BulkMessageConfig)
    (k : nat) : M unit :=
  declareLocals ;;
  forFrom 0 (take k (recipientAddresses config)) (sendBulkMessagesBody this config).

(** The same for [sendBulkMemoOnly]. *)
Definition sendBulkMemoOnlyUpTo (this : Sender) (config : BulkMemoConfig)
    (k : nat) : M unit :=
  let messages := default [bm_message config] (bm_messages config) in
  declareLocals ;;
  forFrom 0 (take k messages) (sendBulkMemoOnlyBody this config messages).

(** ** Further vocabulary *)

(** The key that [WalletUtils.toPublicKey] returns for a line, if any. *)
Definition acceptedKey (address : string) : option PublicKey :=
  match toPublicKey address with
  | Fulfilled publicKey => Some publicKey
  | Rejected _ => None
  end.

(** The [bulkConfig] that [sendMessagesFromFile] hands to
    [sendBulkMessages]. *)
Definition bulkConfigOfFile (config : FileRecipientConfig)
    (validation : FileValidationResult) : BulkMessageConfig :=
  {| message := fr_message config;
     recipientAddresses := validAddresses validation;
     senderKeypair := fr_senderKeypair config;
     connection := fr_connection config;
     commitment := fr_commitment config;
     skipPreflight := fr_skipPreflight config;
     delayBetweenTx := fr_delayBetweenTx config;
     continueOnError := fr_continueOnError config |}.

(** The characters of a string. *)
Definition chars (s : string) : list ascii := list_ascii_of_string s.

(** The rest of a string after one white space code point at its start. *)
Definition afterWhiteSpace (s : string) : option string :=
  match s with
  | EmptyString => None
  | String a rest1 =>
      if isWhiteSpace1 (nat_of_ascii a) then Some rest1
      else
        match rest1 with
        | EmptyString => None
        | String b rest2 =>
            if isWhiteSpace2 (nat_of_ascii a) (nat_of_ascii b) then Some rest2
            else
              match rest2 with
              | EmptyString => None
              | String c rest3 =>
                  if isWhiteSpace3 (nat_of_ascii a) (nat_of_ascii b) (nat_of_ascii c)
                  then Some rest3
                  else None
              end
        end
  end.

(** A string from its bytes. *)
Definition bytes (codes : list nat) : string :=
  string_of_list_ascii (map ascii_of_nat codes).

(** A byte that continues a code point of several bytes. *)
Definition isContinuation (a : nat) : bool := ((128 <=? a) && (a <? 192))%nat.

(** A printable character of ASCII other than the space. *)
Definition isVisibleAscii (c : ascii) : bool :=
  ((33 <=? nat_of_ascii c) && (nat_of_ascii c <=? 126))%nat.

(** The string is one white space code point, and starts with the first
    byte of a code point. *)
Definition isOneWhiteSpace (w : string) : Prop :=
  afterWhiteSpace w = Some "" /\
  match w with
  | String lead _ => isContinuation (nat_of_ascii lead) = false
  | EmptyString => False
  end.

Definition isTimer (e : Event) : bool := negb (isCall e).

(** The timers set, in order. *)
Definition timersOf (events : list Event) : list Event := List.filter isTimer events.

(** What [recipientLines] keeps of one line: nothing of a line that is blank
    or a comment once trimmed, and the trimmed text otherwise. *)
Definition keptLine (line : string) : list string :=
  if (0 <? String.length (trim line))%nat && negb (startsWith "#" (trim line))
  then [trim line] else [].

(** The line is no address for [WalletUtils.toPublicKey]. *)
Definition rejectedLine (address : string) : bool :=
  match acceptedKey address with
  | Some _ => false
  | None => true
  end.

(** ** fileUtils.ts: the sample file *)

(** The text of the sample file, a line break after each line. *)
Definition sampleContent : string :=
  join (String newline "")
    [ "# Recipients file for Solana Message Sender";
      "# One address per line";
      "# Lines starting with # are comments and will be ignored";
      "# Empty lines are also ignored";
      "";
      "# Example addresses (replace with real addresses):";
      "# 11111111111111111111111111111112";
      "# 22222222222222222222222222222223";
      "# 33333333333333333333333333333334";
      "";
      "# Add your recipient addresses below:";
      "" ].

(** [writeFile] stands for [writeFile(path, data, { encoding: "utf8" })] of
    node:fs/promises. *)
Definition createSampleRecipientsFile (writeFile : string -> string -> Settled unit)
    (filePath : string) : Settled unit :=
  await (writeFile filePath sampleContent).

(** ** index.ts: the command line *)

(** [s.split(sep)] for a separator of one character. *)
Fixpoint splitOn (sep : ascii) (s : string) : list string :=
  match s with
  | EmptyString => [EmptyString]
  | String c rest =>
      if Ascii.eqb c sep then EmptyString :: splitOn sep rest
      else match splitOn sep rest with
           | piece :: pieces => String c piece :: pieces
           | [] => [String c EmptyString]
           end
  end.

Definition comma : ascii := ascii_of_nat 44.

(** An object or array that is not [undefined] is truthy. *)
Definition present {A} (o : option A) : bool :=
  match o with Some _ => true | None => false end.

(** A string that is present and not empty, the only truthy strings. *)
Definition truthyString (s : option string) : option string :=
  match s with
  | Some EmptyString | None => None
  | Some text => Some text
  end.

(** [value ? value.split(",").map((x) => x.trim()) : []] *)
Definition commaList (value : option string) : list string :=
  match truthyString value with
  | Some text => map trim (splitOn comma text)
  | None => []
  end.

(** The [options] object. An absent property and one set to [undefined] are
    the same to every reader of the object; the three flags are [true] or
    absent. *)
Record CliOptions : Type := {
  opt_message : option string;
  opt_recipient : option string;
  opt_recipients : option (list string);
  opt_messages : option (list string);
  opt_memoOnly : bool;
  opt_bulk : bool;
  opt_delay : option Z;
  opt_continueOnError : bool
}.

Definition noOptions : CliOptions :=
  {| opt_message := None; opt_recipient := None; opt_recipients := None;
     opt_messages := None; opt_memoOnly := false; opt_bulk := false;
     opt_delay := None; opt_continueOnError := false |}.

(** What [parseCliArgs] ends in: the options, or [showHelp()] followed by
    [process.exit(0)]. *)
Inductive Parsed : Type :=
  | ParsedOptions (options : CliOptions)
  | HelpShown.

(** The loop of [parseCliArgs], entered with [args] the arguments from index
    [i] on. [parseInt] is the built-in, [None] standing for [NaN]. An option
    with a value moves on by two arguments, a flag by one ([i--] before the
    [i += 2] of the loop), and so does, by two, a key that matches no case. *)
Fixpoint parseCliArgsFrom (parseInt : option string -> option Z)
    (args : list string) (options : CliOptions) : Parsed :=
  match args with
  | [] => ParsedOptions options
  | key :: rest =>
      let value := head rest in
      let next := match rest with [] => rest | _ :: after => after end in
      if String.eqb key "--message" || String.eqb key "-m" then
        parseCliArgsFrom parseInt next
          {| opt_message := value;
             opt_recipient := opt_recipient options;
             opt_recipients := opt_recipients options;
             opt_messages := opt_messages options;
             opt_memoOnly := opt_memoOnly options;
             opt_bulk := opt_bulk options;
             opt_delay := opt_delay options;
             opt_continueOnError := opt_continueOnError options |}
      else if String.eqb key "--recipient" || String.eqb key "-r" then
        parseCliArgsFrom parseInt next
          {| opt_message := opt_message options;
             opt_recipient := value;
             opt_recipients := opt_recipients options;
             opt_messages := opt_messages options;
             opt_memoOnly := opt_memoOnly options;
             opt_bulk := opt_bulk options;
             opt_delay := opt_delay options;
             opt_continueOnError := opt_continueOnError options |}
      else if String.eqb key "--recipients" then
        parseCliArgsFrom parseInt next
          {| opt_message := opt_message options;
             opt_recipient := opt_recipient options;
             opt_recipients := Some (commaList value);
             opt_messages := opt_messages options;
             opt_memoOnly := opt_memoOnly options;
             opt_bulk := opt_bulk options;
             opt_delay := opt_delay options;
             opt_continueOnError := opt_continueOnError options |}
      else if String.eqb key "--messages" then
        parseCliArgsFrom parseInt next
          {| opt_message := opt_message options;
             opt_recipient := opt_recipient options;
             opt_recipients := opt_recipients options;
             opt_messages := Some (commaList value);
             opt_memoOnly := opt_memoOnly options;
             opt_bulk := opt_bulk options;
             opt_delay := opt_delay options;
             opt_continueOnError := opt_continueOnError options |}
      else if String.eqb key "--memo-only" then
        parseCliArgsFrom parseInt rest
          {| opt_message := opt_message options;
             opt_recipient := opt_recipient options;
             opt_recipients := opt_recipients options;
             opt_messages := opt_messages options;
             opt_memoOnly := true;
             opt_bulk := opt_bulk options;
             opt_delay := opt_delay options;
             opt_continueOnError := opt_continueOnError options |}
      else if String.eqb key "--bulk" then
        parseCliArgsFrom parseInt rest
          {| opt_message := opt_message options;
             opt_recipient := opt_recipient options;
             opt_recipients := opt_recipients options;
             opt_messages := opt_messages options;
             opt_memoOnly := opt_memoOnly options;
             opt_bulk := true;
             opt_delay := opt_delay options;
             opt_continueOnError := opt_continueOnError options |}
      else if String.eqb key "--delay" then
        parseCliArgsFrom parseInt next
          {| opt_message := opt_message options;
             opt_recipient := opt_recipient options;
             opt_recipients := opt_recipients options;
             opt_messages := opt_messages options;
             opt_memoOnly := opt_memoOnly options;
             opt_bulk := opt_bulk options;
             opt_delay := Some (default 0%Z (parseInt value));
             opt_continueOnError := opt_continueOnError options |}
      else if String.eqb key "--continue-on-error" then
        parseCliArgsFrom parseInt rest
          {| opt_message := opt_message options;
             opt_recipient := opt_recipient options;
             opt_recipients := opt_recipients options;
             opt_messages := opt_messages options;
             opt_memoOnly := opt_memoOnly options;
             opt_bulk := opt_bulk options;
             opt_delay := opt_delay options;
             opt_continueOnError := true |}
      else if String.eqb key "--help" || String.eqb key "-h" then
        HelpShown
      else
        parseCliArgsFrom parseInt next options
  end.

(** [args] is [process.argv.slice(2)]. *)
Definition parseCliArgs (parseInt : option string -> option Z) (args : list string)
    : Parsed :=
  parseCliArgsFrom parseInt args noOptions.

(** ** config.ts and walletUtils.ts: loading the wallet *)

(** The built-ins and packages behind the loaders: [os.homedir()],
    [path.join], [String.prototype.replace] with a string pattern,
    [readFileSync(path, "utf8")], [JSON.parse], [new Uint8Array], the
    decoder of bs58, [Keypair.fromSecretKey], and the text that a template
    literal makes of a thrown value. *)
Record Platform : Type := {
  SecretKey : Type;
  Json : Type;
  homedir : string;
  joinPath : list string -> string;
  replaceFirst : string -> string -> string -> string;
  readFileSync : string -> Settled string;
  jsonParse : string -> Settled Json;
  uint8Array : Json -> Settled SecretKey;
  bs58Decode : string -> Settled SecretKey;
  fromSecretKey : SecretKey -> Settled Keypair;
  describe : Thrown -> string
}.

(** [walletPath || join(homedir(), ".config", "solana", "id.json")] *)
Definition walletPathOrDefault (p : Platform) (walletPath : option string) : string :=
  default (joinPath p [homedir p; ".config"; "solana"; "id.json"])
    (truthyString walletPath).

Definition loadWalletFromFile (p : Platform) (walletPath : option string)
    : Settled (Json p) :=
  let path := walletPathOrDefault p walletPath in
  tryCatch
    (let expandedPath := replaceFirst p path "~" (homedir p) in
     walletData <- await (readFileSync p expandedPath) ;;
     await (jsonParse p walletData))
    (fun error =>
     throw (ErrorInstance
              ("Failed to load wallet from " ++ path ++ ": " ++ describe p error))).

Definition loadKeypairFromFile (p : Platform) (walletPath : option string)
    : Settled Keypair :=
  tryCatch
    (secretKey <- loadWalletFromFile p walletPath ;;
     bytes <- await (uint8Array p secretKey) ;;
     await (fromSecretKey p bytes))
    (fun error =>
     throw (ErrorInstance
              ("Failed to load keypair from file: " ++ describe p error))).

Definition loadKeypairFromPrivateKey (p : Platform) (privateKey : string)
    : Settled Keypair :=
  tryCatch
    (secretKey <- await (bs58Decode p privateKey) ;;
     await (fromSecretKey p secretKey))
    (fun error =>
     throw (ErrorInstance
              ("Failed to load keypair from private key: " ++ describe p error))).

(** What the command line finds around it: the value of [getConfig()], the
    outcome of [new Connection(rpcUrl, commitment)], which throws on an
    endpoint that does not start with http: or https:, the network, the
    balance in lamports that [connection.getBalance] reports, the platform
    of the loaders, the keypair that [Keypair.generate()] makes, and the
    built-in [parseInt]. *)
Record CliEnv : Type := {
  env_config : SolanaConfig;
  env_newConnection : string -> Commitment -> Settled Connection;
  env_network : Network;
  env_getBalance : Connection -> PublicKey -> Settled Z;
  env_platform : Platform;
  env_generateKeypair : Keypair;
  env_parseInt : option string -> option Z
}.

(** The constructor of [SolanaMessageSender], called with
    [config = getConfig()]: the fields of the new object. *)
Definition newSenderFields (env : CliEnv) : Settled SenderFields :=
  let config := env_config env in
  connection <- await (env_newConnection env (sc_rpcUrl config)
                         (sc_commitment config)) ;;
  ret {| this_connection := connection; this_config := config |}.

(** [new SolanaMessageSender(config)] *)
Definition newSender (env : CliEnv) : Settled Sender :=
  fields <- newSenderFields env ;;
  ret (SolanaMessageSender (env_network env) fields).

(** How a run of the program ends: it returns, or it calls
    [process.exit(code)]. *)
Inductive CliExit : Type :=
  | Returned
  | Exited (code : Z).

(** ** defaultExample.ts *)

Definition exampleRecipient : string := "GXVBqMZn8B55tyVv5HgqdYLDta4eQNrH3JM1JqkJNBqs".

Definition defaultExample (env : CliEnv) : M CliExit :=
  tryCatch
    (let config := env_config env in
     sleep 1000 ;;
     sleep 1000 ;;
     sleep 1000 ;;
     sleep 1000 ;;
     sleep 1000 ;;
     fields <- await (newSenderFields env) ;;
     let messageSender := SolanaMessageSender (env_network env) fields in
     senderKeypair <-
       match truthyString (sc_privateKey config) with
       | Some privateKey => await (loadKeypairFromPrivateKey (env_platform env) privateKey)
       | None =>
           match truthyString (sc_walletPath config) with
           | Some walletPath => await (loadKeypairFromFile (env_platform env) (Some walletPath))
           | None => ret (env_generateKeypair env)
           end
       end ;;
     balance <- await (env_getBalance env (this_connection fields)
                         (keypairPublicKey senderKeypair)) ;;
     recipientAddress <- await (toPublicKey exampleRecipient) ;;
     messageResult <- callSendMessage messageSender
       {| mc_message := "Hello from Solana! This is a test message 🚀";
          mc_recipientAddress := recipientAddress;
          mc_senderKeypair := senderKeypair;
          mc_connection := None;
          mc_commitment := Some confirmed;
          mc_skipPreflight := None |} ;;
     memoResult <- callSendMemoOnly messageSender
       {| memo_message := "This is a memo-only message without any SOL transfer";
          memo_senderKeypair := senderKeypair;
          memo_connection := None;
          memo_commitment := Some confirmed;
          memo_skipPreflight := None |} ;;
     ret Returned)
    (fun error => ret (Exited 1)).

(** ** index.ts: runCli *)

(** The loop of [runCli] that turns the recipients of the command line into
    keys, from the keys built so far; [None] when an address is invalid,
    upon which [runCli] returns. *)
Fixpoint cliRecipientAddresses (recipients : list string)
    (recipientAddresses : list PublicKey) : option (list PublicKey) :=
  match recipients with
  | [] => Some recipientAddresses
  | addr :: rest =>
      match toPublicKey addr with
      | Fulfilled publicKey =>
          cliRecipientAddresses rest (recipientAddresses ++ [publicKey])
      | Rejected _ => None
      end
  end.

(** [options.messages || [options.message]], when its first element is not
    [undefined]. *)
Definition cliMessages (options : CliOptions) : option (list string) :=
  match opt_messages options with
  | Some messages => Some messages
  | None =>
      match opt_message options with
      | Some message => Some [message]
      | None => None
      end
  end.

Definition runCli (env : CliEnv) (args : list string) : M CliExit :=
  match parseCliArgs (env_parseInt env) args with
  | HelpShown => ret (Exited 0)
  | ParsedOptions options =>
      if present (truthyString (opt_message options))
         || present (opt_messages options) || opt_bulk options then
        tryCatch
          (let config := env_config env in
           messageSender <- await (newSender env) ;;
           senderKeypair <-
             match truthyString (sc_privateKey config) with
             | Some privateKey => await (loadKeypairFromPrivateKey (env_platform env) privateKey)
             | None => await (loadKeypairFromFile (env_platform env) (sc_walletPath config))
             end ;;
           if opt_bulk options || present (opt_recipients options)
              || present (opt_messages options) then
             if opt_memoOnly options then
               match cliMessages options with
               | None | Some [] => ret Returned
               | Some (first :: _ as messages) =>
                   result <- sendBulkMemoOnly messageSender
                     {| bm_message :=
                          default first (truthyString (opt_message options));
                        bm_messages := Some messages;
                        bm_senderKeypair := senderKeypair;
                        bm_connection := None;
                        bm_commitment := None;
                        bm_skipPreflight := None;
                        bm_delayBetweenTx := opt_delay options;
                        bm_continueOnError := Some (opt_continueOnError options) |} ;;
                   ret Returned
               end
             else
               match opt_recipients options with
               | None | Some [] => ret Returned
               | Some recipients =>
                   match truthyString (opt_message options) with
                   | None => ret Returned
                   | Some message =>
                       match cliRecipientAddresses recipients [] with
                       | None => ret Returned
                       | Some recipientAddresses =>
                           result <- sendBulkMessages messageSender
                             {| message := message;
                                recipientAddresses := recipientAddresses;
                                senderKeypair := senderKeypair;
                                connection := None;
                                commitment := None;
                                skipPreflight := None;
                                delayBetweenTx := opt_delay options;
                                continueOnError :=
                                  Some (opt_continueOnError options) |} ;;
                           ret Returned
                       end
                   end
               end
           else
             (* no list and no [--bulk]: the test of the mode found a message *)
             match truthyString (opt_message options) with
             | None => ret Returned
             | Some message =>
                 if opt_memoOnly options then
                   result <- callSendMemoOnly messageSender
                     {| memo_message := message;
                        memo_senderKeypair := senderKeypair;
                        memo_connection := None;
                        memo_commitment := None;
                        memo_skipPreflight := None |} ;;
                   ret Returned
                 else
                   match truthyString (opt_recipient options) with
                   | Some recipient =>
                       recipientAddress <- await (toPublicKey recipient) ;;
                       result <- callSendMessage messageSender
                         {| mc_message := message;
                            mc_recipientAddress := recipientAddress;
                            mc_senderKeypair := senderKeypair;
                            mc_connection := None;
                            mc_commitment := None;
                            mc_skipPreflight := None |} ;;
                       ret Returned
                   | None => ret Returned
                   end
             end)
          (fun error => ret Returned)
      else
        defaultExample env
  end.

(** The two operations of the default example, with the keypair and the
    recipient it has found. *)
Definition exampleMessageConfig (senderKeypair : Keypair) (recipientAddress : PublicKey)
    : MessageConfig :=
  {| mc_message := "Hello from Solana! This is a test message 🚀";
     mc_recipientAddress := recipientAddress;
     mc_senderKeypair := senderKeypair;
     mc_connection := None;
     mc_commitment := Some confirmed;
     mc_skipPreflight := None |}.

Definition exampleMemoConfig (senderKeypair : Keypair) : MemoConfig :=
  {| memo_message := "This is a memo-only message without any SOL transfer";
     memo_senderKeypair := senderKeypair;
     memo_connection := None;
     memo_commitment := Some confirmed;
     memo_skipPreflight := None |}.

(** The five timers of one second that the default example starts with. *)
Definition countdown : list Event := replicate 5 (SetTimeout 1000).

(** A piece of a comma-separated option: trimmed and free of commas. *)
Definition cleanPiece (piece : string) : Prop :=
  trim piece = piece /\ ~ In comma (chars piece).

(** Everything in [after] that is not already in [before] was given in
    [args]. *)
Definition FromArgs (args : list string) (before after : CliOptions) : Prop :=
  (opt_bulk after = true -> opt_bulk before = true \/ In "--bulk" args) /\
  (opt_memoOnly after = true ->
   opt_memoOnly before = true \/ In "--memo-only" args) /\
  (opt_continueOnError after = true ->
   opt_continueOnError before = true \/ In "--continue-on-error" args) /\
  (forall message, opt_message after = Some message ->
     opt_message before = Some message \/ In message args) /\
  (forall recipient, opt_recipient after = Some recipient ->
     opt_recipient before = Some recipient \/ In recipient args) /\
  (forall recipients, opt_recipients after = Some recipients ->
     opt_recipients before = Some recipients \/
     (In "--recipients" args /\ Forall cleanPiece recipients)) /\
  (forall messages, opt_messages after = Some messages ->
     opt_messages before = Some messages \/
     (In "--messages" args /\ Forall cleanPiece messages)) /\
  (forall delay, opt_delay after = Some delay ->
     opt_delay before = Some delay \/ In "--delay" args).

(** [c] never completes by [break], and every value it returns normally
    satisfies [Q]. *)
Definition Post {A} (c : M A) (Q : A -> Prop) : Prop :=
  forall st, exists st',
    (exists a, c st = (Normal a, st') /\ Q a) \/ (exists e, c st = (Throw e, st')).

(** The keypair that [runCli] loads before it sends anything. *)
Definition cliKeypair (env : CliEnv) : Settled Keypair :=
  match truthyString (sc_privateKey (env_config env)) with
  | Some privateKey => loadKeypairFromPrivateKey (env_platform env) privateKey
  | None => loadKeypairFromFile (env_platform env) (sc_walletPath (env_config env))
  end.

(** [runCli] is in the mode that sends what the command line asks for,
    rather than the default example. *)
Definition messageMode (options : CliOptions) : bool :=
  present (truthyString (opt_message options))
  || present (opt_messages options) || opt_bulk options.

(** The configuration of the bulk send that [runCli] starts. *)
Definition cliBulkConfig (options : CliOptions) (message : string)
    (recipientAddresses : list PublicKey) (senderKeypair : Keypair)
    : BulkMessageConfig :=
  {| message := message;
     recipientAddresses := recipientAddresses;
     senderKeypair := senderKeypair;
     connection := None;
     commitment := None;
     skipPreflight := None;
     delayBetweenTx := opt_delay options;
     continueOnError := Some (opt_continueOnError options) |}.

(** * Proofs *)

(** ** The loops compute [runFrom] *)

(** Case analysis on everything an iteration branches on. *)
Ltac iteration_cases coe delay :=
  match goal with
  | |- context [await ?o] => destruct o as [[? [] ? ?]|?]; simpl
  end;
  destruct coe as [[]|]; simpl;
  destruct delay as [?|]; simpl;
  repeat match goal with
         | |- context [if ?b then _ else _] => destruct b; simpl
         end;
  unfold recordEvent, countCall; simpl;
  rewrite <- ?app_assoc; reflexivity.

Lemma sendBulkMessagesBody_eq this config i recipient st :
  sendBulkMessagesBody this config i recipient st =
  (if stopsAfter (messagesLoop this config)
        (sendMessageMethod this (st_calls st) (messageConfigFor config recipient))
   then Break else Normal tt,
   afterIteration (messagesLoop this config) i recipient st).
Proof.
  unfold sendBulkMessagesBody, afterIteration, stopsAfter, pauseAfter,
    callSendMessage; simpl; unfold messageConfigFor.
  iteration_cases (continueOnError config) (delayBetweenTx config).
Qed.

Lemma sendBulkMemoOnlyBody_eq this config i message st :
  sendBulkMemoOnlyBody this config (memoMessages config) i message st =
  (if stopsAfter (memosLoop this config)
        (sendMemoOnlyMethod this (st_calls st) (memoConfigFor config message))
   then Break else Normal tt,
   afterIteration (memosLoop this config) i message st).
Proof.
  unfold sendBulkMemoOnlyBody, afterIteration, stopsAfter, pauseAfter,
    callSendMemoOnly; simpl; unfold memoConfigFor.
  iteration_cases (bm_continueOnError config) (bm_delayBetweenTx config).
Qed.

Lemma forFrom_runFrom {T} (L : Loop T) (body : nat -> T -> M unit) :
  (forall i x st,
     body i x st =
     (if stopsAfter L (loop_outcome L (st_calls st) x) then Break else Normal tt,
      afterIteration L i x st)) ->
  forall pending i st,
    forFrom i pending body st = (Normal tt, runFrom L i pending st).
Proof.
  intros Hbody pending.
  induction pending as [|x rest IH]; intros i st; simpl; [done|].
  rewrite Hbody.
  destruct (stopsAfter L _); [done|]. apply IH.
Qed.

Lemma sendBulkMessages_eq this config st :
  sendBulkMessages this config st =
  let st' := runFrom (messagesLoop this config) 0 (recipientAddresses config)
               (declared st) in
  (Normal (summary st'), st').
Proof.
  unfold sendBulkMessages; simpl.
  rewrite (forFrom_runFrom (messagesLoop this config)); [done|].
  apply sendBulkMessagesBody_eq.
Qed.

Lemma sendBulkMemoOnly_eq this config st :
  sendBulkMemoOnly this config st =
  let st' := runFrom (memosLoop this config) 0 (memoMessages config)
               (declared st) in
  (Normal (summary st'), st').
Proof.
  unfold sendBulkMemoOnly; simpl. fold (memoMessages config).
  rewrite (forFrom_runFrom (memosLoop this config)); [done|].
  apply sendBulkMemoOnlyBody_eq.
Qed.

(** ** What [runFrom] leaves in the state *)

Section LoopFacts.
Context {T : Type} (L : Loop T).

Lemma success_entryFor target o : success (entryFor target o) = succeeded o.
Proof. destruct o as [result|e]; simpl; [|done]. by destruct (tr_success result). Qed.

Lemma recipientAddress_entryFor target o : recipientAddress (entryFor target o) = target.
Proof. destruct o as [result|e]; simpl; [|done]. by destruct (tr_success result). Qed.

Lemma successes_cons r rs :
  successes (r :: rs) = ((if success r then 1 else 0) + successes rs)%nat.
Proof. unfold successes; simpl. by destruct (success r). Qed.

Lemma failures_cons r rs :
  failures (r :: rs) = ((if success r then 0 else 1) + failures rs)%nat.
Proof. unfold failures; simpl. by destruct (success r). Qed.

Lemma successes_failures rs : (successes rs + failures rs = length rs)%nat.
Proof.
  induction rs as [|r rs IH]; [done|].
  rewrite successes_cons, failures_cons; simpl. destruct (success r); lia.
Qed.

(** The state after the loop, field by field. *)
Lemma runFrom_state pending : forall i st,
  let done_ := take (iterations L (st_calls st) pending) pending in
  let new := entriesFrom L (st_calls st) done_ in
  runFrom L i pending st =
  {| st_calls := st_calls st + length done_;
     st_trace := st_trace st ++ eventsFrom L (st_calls st) i done_;
     st_results := st_results st ++ new;
     st_totalSent := st_totalSent st + successes new;
     st_totalFailed := st_totalFailed st + failures new |}.
Proof.
  induction pending as [|x rest IH]; intros i st; simpl.
  - destruct st; simpl. rewrite !app_nil_r. f_equal; unfold successes, failures; simpl; lia.
  - destruct (stopsAfter L (loop_outcome L (st_calls st) x)) eqn:Hstop; simpl.
    + unfold afterIteration. rewrite successes_cons, failures_cons, success_entryFor.
      rewrite app_nil_r.
      destruct (succeeded _); f_equal; unfold successes, failures; simpl; lia.
    + rewrite IH; simpl.
      rewrite successes_cons, failures_cons, success_entryFor.
      rewrite <- !app_assoc; simpl.
      destruct (succeeded _); f_equal; lia.
Qed.

End LoopFacts.

(** ** How far the loop gets, and what it pushes *)

Section LoopLists.
Context {T : Type} (L : Loop T).

Lemma iterations_le pending : forall c, iterations L c pending <= length pending.
Proof.
  induction pending as [|x rest IH]; intros c; simpl; [lia|].
  destruct (stopsAfter L _); [lia|]. specialize (IH (S c)). lia.
Qed.

Lemma iterations_continue pending :
  truthyBool (loop_continueOnError L) = true ->
  forall c, iterations L c pending = length pending.
Proof.
  intros Hcoe. induction pending as [|x rest IH]; intros c; simpl; [done|].
  unfold stopsAfter. rewrite Hcoe, andb_false_r. by rewrite IH.
Qed.

Lemma iterations_first_failure pending : forall c i x,
  truthyBool (loop_continueOnError L) = false ->
  pending !! i = Some x ->
  (forall k y, k < i -> pending !! k = Some y ->
     succeeded (loop_outcome L (c + k) y) = true) ->
  succeeded (loop_outcome L (c + i) x) = false ->
  iterations L c pending = S i.
Proof.
  induction pending as [|y rest IH]; intros c i x Hcoe Hx Hbefore Hfail; [done|].
  simpl. unfold stopsAfter. rewrite Hcoe. destruct i as [|i]; simpl in *.
  - injection Hx as ->. rewrite Nat.add_0_r in Hfail. by rewrite Hfail.
  - assert (Hy : succeeded (loop_outcome L c y) = true).
    { rewrite <- (Nat.add_0_r c). apply Hbefore; [lia|done]. }
    rewrite Hy; simpl. f_equal. apply (IH (S c) i x); [done..| |].
    + intros k z Hk Hz. replace (S c + k) with (c + S k) by lia.
      apply Hbefore; [lia|done].
    + by replace (S c + i) with (c + S i) by lia.
Qed.

(** Leaving the loop early: errors are not to be continued on, and the last
    entry pushed is a failure. *)
Lemma iterations_short pending : forall c,
  iterations L c pending < length pending ->
  truthyBool (loop_continueOnError L) = false /\
  exists r, last (entriesFrom L c (take (iterations L c pending) pending)) = Some r /\
            success r = false.
Proof.
  induction pending as [|x rest IH]; intros c; simpl; [lia|].
  destruct (stopsAfter L (loop_outcome L c x)) eqn:Hstop; simpl.
  - intros _. unfold stopsAfter in Hstop.
    apply andb_true_iff in Hstop as [Hfail Hcoe].
    apply negb_true_iff in Hfail, Hcoe. split; [done|].
    eexists; split; [done|]. by rewrite success_entryFor.
  - intros Hlt. destruct (IH (S c)) as (Hcoe & r & Hlast & Hr); [lia|].
    split; [done|]. exists r; split; [|done].
    destruct (entriesFrom L (S c) (take (iterations L (S c) rest) rest)); done.
Qed.

Lemma length_entriesFrom xs : forall c, length (entriesFrom L c xs) = length xs.
Proof. induction xs as [|x rest IH]; intros c; simpl; [done|]. by rewrite IH. Qed.

Lemma entriesFrom_lookup xs : forall c k,
  entriesFrom L c xs !! k =
  (fun x => entryFor (loop_target L x) (loop_outcome L (c + k) x)) <$> xs !! k.
Proof.
  induction xs as [|x rest IH]; intros c k; [done|].
  destruct k as [|k]; simpl.
  - by rewrite Nat.add_0_r.
  - rewrite IH. by replace (S c + k) with (c + S k) by lia.
Qed.

Lemma map_recipientAddress_entriesFrom xs : forall c,
  map recipientAddress (entriesFrom L c xs) = map (loop_target L) xs.
Proof.
  induction xs as [|x rest IH]; intros c; simpl; [done|].
  by rewrite recipientAddress_entryFor, IH.
Qed.

Lemma callsOf_pauseAfter i o : callsOf (pauseAfter L i o) = [].
Proof.
  unfold pauseAfter. destruct o as [result|e]; [|done].
  destruct (loop_delayBetweenTx L) as [ms|]; [|done].
  by destruct (_ && _).
Qed.

Lemma callsOf_eventsFrom xs :
  (forall x, isCall (loop_call L x) = true) ->
  forall c i, callsOf (eventsFrom L c i xs) = map (loop_call L) xs.
Proof.
  intros Hcall. induction xs as [|x rest IH]; intros c i; simpl; [done|].
  unfold callsOf in *; simpl. rewrite Hcall. f_equal.
  rewrite List.filter_app. fold (callsOf (pauseAfter L i (loop_outcome L c x))).
  by rewrite callsOf_pauseAfter, IH.
Qed.

Lemma iterations_take xs : forall c k,
  iterations L c (take k xs) = min k (iterations L c xs).
Proof.
  induction xs as [|x rest IH]; intros c k; destruct k as [|k]; simpl; try done.
  destruct (stopsAfter L _); [by rewrite Nat.min_0_r|]. by rewrite IH.
Qed.

Lemma entriesFrom_take xs : forall c k,
  take k (entriesFrom L c xs) = entriesFrom L c (take k xs).
Proof.
  induction xs as [|x rest IH]; intros c k; destruct k as [|k]; simpl; try done.
  by rewrite IH.
Qed.

End LoopLists.

(** ** A whole run of either loop *)

Section Run.
Context {T : Type} (L : Loop T) (xs : list T) (st : State).

Let done_ := take (iterations L (st_calls st) xs) xs.
Let final := runFrom L 0 xs (declared st).

Lemma run_state :
  final =
  {| st_calls := st_calls st + length done_;
     st_trace := st_trace st ++ eventsFrom L (st_calls st) 0 done_;
     st_results := entriesFrom L (st_calls st) done_;
     st_totalSent := successes (entriesFrom L (st_calls st) done_);
     st_totalFailed := failures (entriesFrom L (st_calls st) done_) |}.
Proof. unfold final. by rewrite runFrom_state. Qed.

Lemma length_done : length done_ = iterations L (st_calls st) xs.
Proof. unfold done_. rewrite length_take. pose proof (iterations_le L xs (st_calls st)). lia. Qed.

Lemma run_length_results :
  length (st_results final) = iterations L (st_calls st) xs.
Proof. rewrite run_state; simpl. by rewrite length_entriesFrom, length_done. Qed.

Lemma run_counts :
  st_totalSent final = successes (st_results final) /\
  st_totalFailed final = failures (st_results final) /\
  st_totalSent final + st_totalFailed final = length (st_results final) /\
  length (st_results final) <= length xs.
Proof.
  rewrite run_length_results. rewrite run_state; simpl.
  split_and!; try done.
  - rewrite successes_failures, length_entriesFrom. apply length_done.
  - apply iterations_le.
Qed.

Lemma run_targets :
  map recipientAddress (st_results final) =
  map (loop_target L) (take (length (st_results final)) xs).
Proof.
  rewrite run_length_results. rewrite run_state; simpl.
  apply map_recipientAddress_entriesFrom.
Qed.

Lemma run_calls :
  (forall x, isCall (loop_call L x) = true) ->
  exists events,
    st_trace final = (st_trace st ++ events)%list /\
    callsOf events = map (loop_call L) (take (length (st_results final)) xs).
Proof.
  intros Hcall. rewrite run_length_results. rewrite run_state; simpl.
  eexists; split; [done|]. by apply callsOf_eventsFrom.
Qed.

Lemma run_entry k r :
  st_results final !! k = Some r ->
  exists x, xs !! k = Some x /\
    r = entryFor (loop_target L x) (loop_outcome L (st_calls st + k) x).
Proof.
  rewrite run_state; simpl. rewrite entriesFrom_lookup.
  destruct (done_ !! k) as [x|] eqn:Hk; simpl; [|done].
  intros [= <-]. exists x; split; [|done].
  unfold done_ in Hk. by apply lookup_take_Some in Hk as [? ?].
Qed.

End Run.

(** ** Properties of the two bulk loops *)

Lemma isCall_messages this config x : isCall (loop_call (messagesLoop this config) x) = true.
Proof. done. Qed.

Lemma isCall_memos this config x : isCall (loop_call (memosLoop this config) x) = true.
Proof. done. Qed.

(** C1. With [continueOnError] false (or absent), when the first failing
    work item is the one at index [i], the run returns [i + 1] entries and
    the single operations invoked are exactly those for the items [0..i], in
    that order: none is invoked for a later index. The same holds for
    [sendBulkMemoOnly]. *)
Theorem first_failure_stops_the_run :
  (forall this config st i recipient,
     truthyBool (continueOnError config) = false ->
     recipientAddresses config !! i = Some recipient ->
     (forall k r, k < i -> recipientAddresses config !! k = Some r ->
        succeeded (sendMessageMethod this (st_calls st + k)
                     (messageConfigFor config r)) = true) ->
     succeeded (sendMessageMethod this (st_calls st + i)
                  (messageConfigFor config recipient)) = false ->
     exists result st' events,
       sendBulkMessages this config st = (Normal result, st') /\
       length (results result) = i + 1 /\
       st_trace st' = (st_trace st ++ events)%list /\
       callsOf events =
         map (fun r => SendMessageCall (messageConfigFor config r))
             (take (i + 1) (recipientAddresses config)))
  /\
  (forall this config st i message,
     truthyBool (bm_continueOnError config) = false ->
     memoMessages config !! i = Some message ->
     (forall k m, k < i -> memoMessages config !! k = Some m ->
        succeeded (sendMemoOnlyMethod this (st_calls st + k)
                     (memoConfigFor config m)) = true) ->
     succeeded (sendMemoOnlyMethod this (st_calls st + i)
                  (memoConfigFor config message)) = false ->
     exists result st' events,
       sendBulkMemoOnly this config st = (Normal result, st') /\
       length (results result) = i + 1 /\
       st_trace st' = (st_trace st ++ events)%list /\
       callsOf events =
         map (fun m => SendMemoOnlyCall (memoConfigFor config m))
             (take (i + 1) (memoMessages config))).
Proof.
  split.
  - intros this config st i recipient Hcoe Hi Hbefore Hfail.
    rewrite sendBulkMessages_eq; simpl.
    set (L := messagesLoop this config).
    pose proof (iterations_first_failure L _ (st_calls st) i recipient
                  Hcoe Hi Hbefore Hfail) as Hn.
    destruct (run_calls L (recipientAddresses config) st (isCall_messages this config))
      as (events & Htrace & Hcalls).
    rewrite run_length_results, Hn in Hcalls.
    eexists _, _, events. split; [done|]. simpl.
    rewrite run_length_results, Hn. replace (i + 1) with (S i) by lia. done.
  - intros this config st i message Hcoe Hi Hbefore Hfail.
    rewrite sendBulkMemoOnly_eq; simpl.
    set (L := memosLoop this config).
    pose proof (iterations_first_failure L _ (st_calls st) i message
                  Hcoe Hi Hbefore Hfail) as Hn.
    destruct (run_calls L (memoMessages config) st (isCall_memos this config))
      as (events & Htrace & Hcalls).
    rewrite run_length_results, Hn in Hcalls.
    eexists _, _, events. split; [done|]. simpl.
    rewrite run_length_results, Hn. replace (i + 1) with (S i) by lia. done.
Qed.

(** C2. In the value returned by [sendBulkMessages] and by
    [sendBulkMemoOnly], [totalSent] is the number of entries of [results]
    with [success = true], [totalFailed] the number of those with
    [success = false], and [overallSuccess] is true exactly when
    [totalFailed] is 0; for an empty work list the value is
    [{ totalSent: 0, totalFailed: 0, results: [], overallSuccess: true }]. *)
Theorem bulk_result_counts :
  (forall this config st, exists result st',
     sendBulkMessages this config st = (Normal result, st') /\
     totalSent result = successes (results result) /\
     totalFailed result = failures (results result) /\
     (overallSuccess result = true <-> totalFailed result = 0))
  /\
  (forall this config st, exists result st',
     sendBulkMemoOnly this config st = (Normal result, st') /\
     totalSent result = successes (results result) /\
     totalFailed result = failures (results result) /\
     (overallSuccess result = true <-> totalFailed result = 0))
  /\
  (forall this config st,
     recipientAddresses config = [] ->
     exists st',
       sendBulkMessages this config st =
       (Normal {| totalSent := 0; totalFailed := 0; results := [];
                  overallSuccess := true |}, st'))
  /\
  (forall this config st,
     bm_messages config = Some [] ->
     exists st',
       sendBulkMemoOnly this config st =
       (Normal {| totalSent := 0; totalFailed := 0; results := [];
                  overallSuccess := true |}, st')).
Proof.
  split_and!.
  - intros this config st. rewrite sendBulkMessages_eq; simpl.
    destruct (run_counts (messagesLoop this config) (recipientAddresses config) st)
      as (Hsent & Hfailed & _).
    eexists _, _. split; [done|]. simpl. split_and!; [done..|apply Nat.eqb_eq].
  - intros this config st. rewrite sendBulkMemoOnly_eq; simpl.
    destruct (run_counts (memosLoop this config) (memoMessages config) st)
      as (Hsent & Hfailed & _).
    eexists _, _. split; [done|]. simpl. split_and!; [done..|apply Nat.eqb_eq].
  - intros this config st Hempty. rewrite sendBulkMessages_eq, Hempty; simpl.
    by eexists.
  - intros this config st Hempty. rewrite sendBulkMemoOnly_eq.
    unfold memoMessages. rewrite Hempty; simpl. by eexists.
Qed.

Lemma sendBulkMessagesUpTo_eq this config k st :
  sendBulkMessagesUpTo this config k st =
  (Normal tt,
   runFrom (messagesLoop this config) 0 (take k (recipientAddresses config))
     (declared st)).
Proof.
  unfold sendBulkMessagesUpTo; simpl.
  rewrite (forFrom_runFrom (messagesLoop this config)); [done|].
  apply sendBulkMessagesBody_eq.
Qed.

Lemma sendBulkMemoOnlyUpTo_eq this config k st :
  sendBulkMemoOnlyUpTo this config k st =
  (Normal tt,
   runFrom (memosLoop this config) 0 (take k (memoMessages config)) (declared st)).
Proof.
  unfold sendBulkMemoOnlyUpTo; simpl. fold (memoMessages config).
  rewrite (forFrom_runFrom (memosLoop this config)); [done|].
  apply sendBulkMemoOnlyBody_eq.
Qed.

Lemma run_short {T} (L : Loop T) xs st :
  length (st_results (runFrom L 0 xs (declared st))) < length xs ->
  truthyBool (loop_continueOnError L) = false /\
  exists r, last (st_results (runFrom L 0 xs (declared st))) = Some r /\
            success r = false.
Proof.
  rewrite run_length_results. intros Hlt.
  rewrite run_state; simpl. by apply iterations_short.
Qed.

(** Cutting the loop off after [k] iterations leaves the first [k] of the
    entries that the whole loop pushes. *)
Lemma run_prefix {T} (L : Loop T) xs st k :
  st_results (runFrom L 0 (take k xs) (declared st)) =
  take k (st_results (runFrom L 0 xs (declared st))).
Proof.
  rewrite !run_state; simpl.
  rewrite iterations_take, entriesFrom_take, !take_take.
  f_equal. f_equal. lia.
Qed.

(** C3. After every iteration of either loop, and at return,
    [totalSent + totalFailed] is the length of [results], which is at most
    the number of work items; the returned [results] is shorter than the
    input only if [continueOnError] is false (or absent) and the loop was
    left at a failing item, the last entry. The state after [k] iterations
    holds the first [k] entries of the returned [results], and the state
    after the whole loop is the state after [length] iterations. *)
Theorem counts_add_up_to_results :
  (forall this config st k, exists st_k result st',
     sendBulkMessagesUpTo this config k st = (Normal tt, st_k) /\
     sendBulkMessages this config st = (Normal result, st') /\
     st_results st_k = take k (results result) /\
     st_totalSent st_k + st_totalFailed st_k = length (st_results st_k) /\
     length (st_results st_k) <= length (recipientAddresses config))
  /\
  (forall this config st, exists result st',
     sendBulkMessages this config st = (Normal result, st') /\
     sendBulkMessagesUpTo this config (length (recipientAddresses config)) st
       = (Normal tt, st') /\
     totalSent result + totalFailed result = length (results result) /\
     length (results result) <= length (recipientAddresses config) /\
     (length (results result) < length (recipientAddresses config) ->
      truthyBool (continueOnError config) = false /\
      exists r, last (results result) = Some r /\ success r = false))
  /\
  (forall this config st k, exists st_k result st',
     sendBulkMemoOnlyUpTo this config k st = (Normal tt, st_k) /\
     sendBulkMemoOnly this config st = (Normal result, st') /\
     st_results st_k = take k (results result) /\
     st_totalSent st_k + st_totalFailed st_k = length (st_results st_k) /\
     length (st_results st_k) <= length (memoMessages config))
  /\
  (forall this config st, exists result st',
     sendBulkMemoOnly this config st = (Normal result, st') /\
     sendBulkMemoOnlyUpTo this config (length (memoMessages config)) st
       = (Normal tt, st') /\
     totalSent result + totalFailed result = length (results result) /\
     length (results result) <= length (memoMessages config) /\
     (length (results result) < length (memoMessages config) ->
      truthyBool (bm_continueOnError config) = false /\
      exists r, last (results result) = Some r /\ success r = false)).
Proof.
  split_and!.
  - intros this config st k. rewrite sendBulkMessagesUpTo_eq, sendBulkMessages_eq.
    destruct (run_counts (messagesLoop this config)
                (take k (recipientAddresses config)) st) as (_ & _ & Hsum & Hle).
    eexists _, _, _; split_and!; [done..|apply run_prefix|done|].
    etrans; [exact Hle|]. rewrite length_take. lia.
  - intros this config st.
    rewrite sendBulkMessages_eq, sendBulkMessagesUpTo_eq, firstn_all; simpl.
    destruct (run_counts (messagesLoop this config) (recipientAddresses config) st)
      as (_ & _ & Hsum & Hle).
    eexists _, _; split_and!; [done..|].
    apply (run_short (messagesLoop this config)).
  - intros this config st k. rewrite sendBulkMemoOnlyUpTo_eq, sendBulkMemoOnly_eq.
    destruct (run_counts (memosLoop this config)
                (take k (memoMessages config)) st) as (_ & _ & Hsum & Hle).
    eexists _, _, _; split_and!; [done..|apply run_prefix|done|].
    etrans; [exact Hle|]. rewrite length_take. lia.
  - intros this config st.
    rewrite sendBulkMemoOnly_eq, sendBulkMemoOnlyUpTo_eq, firstn_all; simpl.
    destruct (run_counts (memosLoop this config) (memoMessages config) st)
      as (_ & _ & Hsum & Hle).
    eexists _, _; split_and!; [done..|].
    apply (run_short (memosLoop this config)).
Qed.

(** C4. With [continueOnError] true, [results] has one entry per work item,
    whatever the single operations do. *)
Theorem continue_on_error_covers_every_item :
  (forall this config st,
     continueOnError config = Some true ->
     exists result st',
       sendBulkMessages this config st = (Normal result, st') /\
       length (results result) = length (recipientAddresses config))
  /\
  (forall this config st,
     bm_continueOnError config = Some true ->
     exists result st',
       sendBulkMemoOnly this config st = (Normal result, st') /\
       length (results result) = length (memoMessages config)).
Proof.
  split.
  - intros this config st Hcoe. rewrite sendBulkMessages_eq; simpl.
    eexists _, _; split; [done|]. simpl.
    rewrite run_length_results. apply iterations_continue; simpl. by rewrite Hcoe.
  - intros this config st Hcoe. rewrite sendBulkMemoOnly_eq; simpl.
    eexists _, _; split; [done|]. simpl.
    rewrite run_length_results. apply iterations_continue; simpl. by rewrite Hcoe.
Qed.

(** C5. [sendBulkMessages] keeps the input order: the [k]-th entry of
    [results] carries the base58 text of the [k]-th recipient, and the single
    operations invoked during the run are those for the first
    [length results] recipients, one each, from left to right. *)
Theorem results_follow_the_recipients :
  forall this config st, exists result st' events,
    sendBulkMessages this config st = (Normal result, st') /\
    (forall k r, results result !! k = Some r ->
       exists recipient,
         recipientAddresses config !! k = Some recipient /\
         recipientAddress r = toBase58 recipient) /\
    map recipientAddress (results result) =
      map toBase58 (take (length (results result)) (recipientAddresses config)) /\
    st_trace st' = (st_trace st ++ events)%list /\
    callsOf events =
      map (fun recipient => SendMessageCall (messageConfigFor config recipient))
          (take (length (results result)) (recipientAddresses config)).
Proof.
  intros this config st. rewrite sendBulkMessages_eq; simpl.
  set (L := messagesLoop this config).
  destruct (run_calls L (recipientAddresses config) st (isCall_messages this config))
    as (events & Htrace & Hcalls).
  eexists _, _, events; split; [done|]. simpl. split_and!; [|  |done..].
  - intros k r Hk. apply (run_entry L) in Hk as (x & Hx & ->).
    exists x; split; [done|]. apply recipientAddress_entryFor.
  - apply (run_targets L).
Qed.

(** ** The single operations of the repository never reject *)

Lemma sendMessage_outcomes net fields n config :
  let connection := default (this_connection fields) (mc_connection config) in
  let transaction blockhash :=
    {| instructions :=
         [ MemoInstruction memoProgramId (mc_message config);
           TransferInstruction (keypairPublicKey (mc_senderKeypair config))
             (mc_recipientAddress config) 1000 ];
       recentBlockhash := blockhash;
       feePayer := keypairPublicKey (mc_senderKeypair config) |} in
  let options :=
    {| co_commitment :=
         default (sc_commitment (this_config fields)) (mc_commitment config);
       co_skipPreflight :=
         truthyBool (mc_skipPreflight config)
         || sc_skipPreflight (this_config fields) |} in
  (exists blockhash signature,
     getLatestBlockhash net n connection = Fulfilled blockhash /\
     sendAndConfirmTransaction net n connection (transaction blockhash)
       [mc_senderKeypair config] options = Fulfilled signature /\
     sendMessage net fields n config =
     Fulfilled {| tr_signature := signature;
                  tr_success := true;
                  tr_error := None;
                  tr_explorerUrl :=
                    Some (getExplorerUrl signature (sc_network (this_config fields))) |})
  \/
  (exists e,
     (getLatestBlockhash net n connection = Rejected e \/
      exists blockhash,
        getLatestBlockhash net n connection = Fulfilled blockhash /\
        sendAndConfirmTransaction net n connection (transaction blockhash)
          [mc_senderKeypair config] options = Rejected e) /\
     sendMessage net fields n config =
     Fulfilled {| tr_signature := "";
                  tr_success := false;
                  tr_error := Some (errorMessageOf e);
                  tr_explorerUrl := None |}).
Proof.
  unfold sendMessage; simpl.
  destruct (getLatestBlockhash net n _) as [blockhash|e]; simpl;
    [|right; exists e; split; [by left|done]].
  destruct (sendAndConfirmTransaction net n _ _ _ _) as [signature|e] eqn:Hsend;
    simpl.
  - left. by exists blockhash, signature.
  - right. exists e. split; [right; by exists blockhash|done].
Qed.

Lemma sendMemoOnly_outcomes net fields n config :
  let connection := default (this_connection fields) (memo_connection config) in
  let transaction blockhash :=
    {| instructions := [ MemoInstruction memoProgramId (memo_message config) ];
       recentBlockhash := blockhash;
       feePayer := keypairPublicKey (memo_senderKeypair config) |} in
  let options :=
    {| co_commitment :=
         default (sc_commitment (this_config fields)) (memo_commitment config);
       co_skipPreflight :=
         truthyBool (memo_skipPreflight config)
         || sc_skipPreflight (this_config fields) |} in
  (exists blockhash signature,
     getLatestBlockhash net n connection = Fulfilled blockhash /\
     sendAndConfirmTransaction net n connection (transaction blockhash)
       [memo_senderKeypair config] options = Fulfilled signature /\
     sendMemoOnly net fields n config =
     Fulfilled {| tr_signature := signature;
                  tr_success := true;
                  tr_error := None;
                  tr_explorerUrl :=
                    Some (getExplorerUrl signature (sc_network (this_config fields))) |})
  \/
  (exists e,
     (getLatestBlockhash net n connection = Rejected e \/
      exists blockhash,
        getLatestBlockhash net n connection = Fulfilled blockhash /\
        sendAndConfirmTransaction net n connection (transaction blockhash)
          [memo_senderKeypair config] options = Rejected e) /\
     sendMemoOnly net fields n config =
     Fulfilled {| tr_signature := "";
                  tr_success := false;
                  tr_error := Some (errorMessageOf e);
                  tr_explorerUrl := None |}).
Proof.
  unfold sendMemoOnly; simpl.
  destruct (getLatestBlockhash net n _) as [blockhash|e]; simpl;
    [|right; exists e; split; [by left|done]].
  destruct (sendAndConfirmTransaction net n _ _ _ _) as [signature|e] eqn:Hsend;
    simpl.
  - left. by exists blockhash, signature.
  - right. exists e. split; [right; by exists blockhash|done].
Qed.

Lemma sendMessage_cases net fields n config :
  (exists signature,
     sendMessage net fields n config =
     Fulfilled {| tr_signature := signature;
                  tr_success := true;
                  tr_error := None;
                  tr_explorerUrl :=
                    Some (getExplorerUrl signature (sc_network (this_config fields))) |})
  \/
  (exists e,
     sendMessage net fields n config =
     Fulfilled {| tr_signature := "";
                  tr_success := false;
                  tr_error := Some (errorMessageOf e);
                  tr_explorerUrl := None |}).
Proof.
  destruct (sendMessage_outcomes net fields n config)
    as [(blockhash & sig & _ & _ & ->)|(e & _ & ->)]; eauto.
Qed.

Lemma sendMemoOnly_cases net fields n config :
  (exists signature,
     sendMemoOnly net fields n config =
     Fulfilled {| tr_signature := signature;
                  tr_success := true;
                  tr_error := None;
                  tr_explorerUrl :=
                    Some (getExplorerUrl signature (sc_network (this_config fields))) |})
  \/
  (exists e,
     sendMemoOnly net fields n config =
     Fulfilled {| tr_signature := "";
                  tr_success := false;
                  tr_error := Some (errorMessageOf e);
                  tr_explorerUrl := None |}).
Proof.
  destruct (sendMemoOnly_outcomes net fields n config)
    as [(blockhash & sig & _ & _ & ->)|(e & _ & ->)]; eauto.
Qed.



(** ** Timers *)

Lemma iterations_cons_pos {T} (L : Loop T) c x rest :
  exists p, iterations L c (x :: rest) = S p.
Proof. simpl. destruct (stopsAfter L _); eauto. Qed.

Lemma pauseAfter_stop {T} (L : Loop T) i o :
  stopsAfter L o = true -> pauseAfter L i o = [].
Proof.
  unfold stopsAfter, pauseAfter. intros [Hfail Hcoe]%andb_true_iff.
  apply negb_true_iff in Hfail, Hcoe.
  destruct o as [answer|e]; [|done]. simpl in Hfail. rewrite Hfail, Hcoe.
  by destruct (loop_delayBetweenTx L).
Qed.

Lemma pauseAfter_last {T} (L : Loop T) i o :
  i + 1 = loop_length L -> pauseAfter L i o = [].
Proof.
  unfold pauseAfter. intros <-. destruct o as [answer|e]; [|done].
  destruct (loop_delayBetweenTx L) as [ms|]; [|done].
  replace (Z.of_nat i <? Z.of_nat (i + 1) - 1)%Z with false
    by (symmetry; apply Z.ltb_ge; lia).
  by rewrite andb_false_r.
Qed.

Lemma pauseAfter_between {T} (L : Loop T) i answer d :
  loop_delayBetweenTx L = Some d -> d <> 0%Z ->
  stopsAfter L (Fulfilled answer) = false ->
  i + 1 < loop_length L ->
  pauseAfter L i (Fulfilled answer) = [SetTimeout d].
Proof.
  unfold stopsAfter, pauseAfter. intros -> Hd Hgo Hi. simpl in *.
  replace (tr_success answer || truthyBool (loop_continueOnError L)) with true
    by (destruct (tr_success answer), (truthyBool (loop_continueOnError L)); done).
  replace (d =? 0)%Z with false by (symmetry; by apply Z.eqb_neq).
  replace (Z.of_nat i <? Z.of_nat (loop_length L) - 1)%Z with true
    by (symmetry; apply Z.ltb_lt; lia).
  done.
Qed.

(** When no operation rejects, a timer is set between any two consecutive
    operations and nowhere else. *)
Lemma eventsFrom_intersperse {T} (L : Loop T) d :
  loop_delayBetweenTx L = Some d -> d <> 0%Z ->
  (forall n x, exists answer, loop_outcome L n x = Fulfilled answer) ->
  forall pending c i,
    i + length pending = loop_length L ->
    eventsFrom L c i (take (iterations L c pending) pending) =
    intersperse (SetTimeout d)
      (map (loop_call L) (take (iterations L c pending) pending)).
Proof.
  intros Hdelay Hd Hfulfilled pending.
  induction pending as [|x rest IH]; intros c i Hlen; [done|].
  simpl iterations. destruct (stopsAfter L (loop_outcome L c x)) eqn:Hstop.
  - simpl. by rewrite pauseAfter_stop.
  - simpl in Hlen. specialize (IH (S c) (S i)). simpl.
    destruct rest as [|y rest'].
    + simpl. rewrite pauseAfter_last by (simpl in Hlen; lia). done.
    + destruct (Hfulfilled c x) as [answer Hx]. rewrite Hx in *.
      rewrite (pauseAfter_between L i answer d) by (done || simpl in Hlen; lia).
      rewrite IH by (simpl in *; lia).
      destruct (iterations_cons_pos L (S c) y rest') as [p ->]. done.
Qed.

(** C7. With a non-zero [delayBetweenTx], a run of [sendBulkMessages] (or of
    [sendBulkMemoOnly]) of the repository's class sets the timer once, for
    that many milliseconds, between any two consecutive operations it
    invokes, and never after the last one, whether the loop ran to its end
    or was left early: the events of the run are the invocations for the
    processed items with one timer between neighbours. *)
Theorem one_delay_between_operations :
  (forall net fields config st d,
     delayBetweenTx config = Some d -> d <> 0%Z ->
     exists result st',
       sendBulkMessages (SolanaMessageSender net fields) config st
         = (Normal result, st') /\
       st_trace st' =
         (st_trace st ++
          intersperse (SetTimeout d)
            (map (fun recipient => SendMessageCall (messageConfigFor config recipient))
               (take (length (results result)) (recipientAddresses config))))%list)
  /\
  (forall net fields config st d,
     bm_delayBetweenTx config = Some d -> d <> 0%Z ->
     exists result st',
       sendBulkMemoOnly (SolanaMessageSender net fields) config st
         = (Normal result, st') /\
       st_trace st' =
         (st_trace st ++
          intersperse (SetTimeout d)
            (map (fun message => SendMemoOnlyCall (memoConfigFor config message))
               (take (length (results result)) (memoMessages config))))%list).
Proof.
  split.
  - intros net fields config st d Hdelay Hd. rewrite sendBulkMessages_eq; simpl.
    eexists _, _; split; [done|]. simpl.
    set (L := messagesLoop (SolanaMessageSender net fields) config).
    rewrite run_length_results. rewrite run_state; simpl. f_equal.
    apply (eventsFrom_intersperse L d); [done..| |done].
    intros n x; simpl.
    destruct (sendMessage_cases net fields n (messageConfigFor config x))
      as [[sig ->]|[e ->]]; eauto.
  - intros net fields config st d Hdelay Hd. rewrite sendBulkMemoOnly_eq; simpl.
    eexists _, _; split; [done|]. simpl.
    set (L := memosLoop (SolanaMessageSender net fields) config).
    rewrite run_length_results. rewrite run_state; simpl. f_equal.
    apply (eventsFrom_intersperse L d); [done..| |done].
    intros n x; simpl.
    destruct (sendMemoOnly_cases net fields n (memoConfigFor config x))
      as [[sig ->]|[e ->]]; eauto.
Qed.

(** ** Memo-only runs *)

(** C10. [sendBulkMemoOnly] without [messages] invokes exactly one memo
    operation, with [config.message] as its payload, and sets no timer; with
    [messages] the empty list it invokes none and returns
    [{ totalSent: 0, totalFailed: 0, results: [], overallSuccess: true }];
    every entry of [results] carries ["memo-only"] as its
    [recipientAddress]. *)
Theorem memo_only_fallback_and_sentinel :
  (forall this config st,
     bm_messages config = None ->
     exists result st',
       sendBulkMemoOnly this config st = (Normal result, st') /\
       st_trace st' =
         (st_trace st
          ++ [SendMemoOnlyCall (memoConfigFor config (bm_message config))])%list /\
       st_calls st' = S (st_calls st) /\
       length (results result) = 1)
  /\
  (forall this config st,
     bm_messages config = Some [] ->
     exists st',
       sendBulkMemoOnly this config st =
         (Normal {| totalSent := 0; totalFailed := 0; results := [];
                    overallSuccess := true |}, st') /\
       st_trace st' = st_trace st /\
       st_calls st' = st_calls st)
  /\
  (forall this config st, exists result st',
     sendBulkMemoOnly this config st = (Normal result, st') /\
     Forall (fun r => recipientAddress r = "memo-only") (results result)).
Proof.
  split_and!.
  - intros this config st Hnone. rewrite sendBulkMemoOnly_eq.
    unfold memoMessages. rewrite Hnone; simpl.
    eexists _, _; split; [done|].
    destruct (stopsAfter _ _); simpl;
      rewrite (pauseAfter_last (memosLoop this config)); try done;
      simpl; unfold memoMessages; by rewrite Hnone.
  - intros this config st Hempty. rewrite sendBulkMemoOnly_eq.
    unfold memoMessages. rewrite Hempty; simpl. by eexists.
  - intros this config st. rewrite sendBulkMemoOnly_eq; simpl.
    eexists _, _; split; [done|]. simpl.
    apply Forall_lookup. intros k r Hk.
    apply (run_entry (memosLoop this config)) in Hk as (x & Hx & ->).
    apply recipientAddress_entryFor.
Qed.

(** ** Recipients from a file *)

Lemma validateAddresses_invalid lines : forall valid invalid,
  length invalid <= length (validateAddresses lines valid invalid).2.
Proof.
  induction lines as [|address rest IH]; intros valid invalid; simpl; [done|].
  destruct (toPublicKey address); [apply IH|].
  etrans; [|apply IH]. rewrite length_app; simpl. lia.
Qed.

Lemma validateAddresses_rejected lines : forall valid invalid line e,
  In line lines -> toPublicKey line = Rejected e ->
  0 < length (validateAddresses lines valid invalid).2.
Proof.
  induction lines as [|address rest IH]; intros valid invalid line e Hin Hbad;
    simpl in *; [done|].
  destruct Hin as [->|Hin].
  - rewrite Hbad. eapply Nat.lt_le_trans; [|apply validateAddresses_invalid].
    rewrite length_app; simpl. lia.
  - destruct (toPublicKey address); by eapply IH.
Qed.

Lemma toPublicKey_rejects address e :
  newPublicKey address = Rejected e -> exists e', toPublicKey address = Rejected e'.
Proof.
  intros Hbad. unfold toPublicKey, isValidPublicKey. rewrite Hbad; simpl. eauto.
Qed.

Lemma readRecipientsFile_total fs filePath :
  exists validation, readRecipientsFile fs filePath = Fulfilled validation.
Proof.
  unfold readRecipientsFile, checkRecipientsFile; simpl.
  destruct (access fs filePath); simpl; [|eauto].
  destruct (readFile fs filePath) as [fileContent|e]; simpl; [|eauto].
  destruct (length (recipientLines fileContent) =? 0)%nat; [eauto|].
  destruct (validateAddresses _ _ _); eauto.
Qed.

Lemma readRecipientsFile_no_access fs filePath e validation :
  access fs filePath = Rejected e ->
  readRecipientsFile fs filePath = Fulfilled validation ->
  isValid validation = false.
Proof.
  unfold readRecipientsFile, checkRecipientsFile; simpl. intros ->; simpl.
  by intros [= <-].
Qed.

Lemma readRecipientsFile_unreadable fs filePath e validation :
  readFile fs filePath = Rejected e ->
  readRecipientsFile fs filePath = Fulfilled validation ->
  isValid validation = false.
Proof.
  unfold readRecipientsFile, checkRecipientsFile; simpl. intros ->.
  destruct (access fs filePath); simpl; by intros [= <-].
Qed.

Lemma readRecipientsFile_invalid_address fs filePath fileContent line e validation :
  readFile fs filePath = Fulfilled fileContent ->
  In line (recipientLines fileContent) ->
  newPublicKey line = Rejected e ->
  readRecipientsFile fs filePath = Fulfilled validation ->
  isValid validation = false.
Proof.
  unfold readRecipientsFile, checkRecipientsFile; simpl. intros -> Hin Hbad.
  destruct (access fs filePath); simpl; [|by intros [= <-]].
  destruct (length (recipientLines fileContent) =? 0)%nat; [by intros [= <-]|].
  apply toPublicKey_rejects in Hbad as [e' Hbad].
  pose proof (validateAddresses_rejected _ [] [] line e' Hin Hbad) as Hpos.
  destruct (validateAddresses _ _ _) as [valid invalid]; simpl in *.
  intros [= <-]; simpl.
  destruct invalid; simpl in *; [lia|done].
Qed.

(** C9. Whenever the validation of the recipients file fails,
    [sendMessagesFromFile] returns
    [{ totalSent: 0, totalFailed: 0, results: [], overallSuccess: false }]
    and leaves the state of the run as it was: no operation is invoked. So
    [overallSuccess] is false although [totalFailed] is 0. The validation
    always yields a value, and it fails when the file cannot be accessed,
    when reading it throws, and when one of its address lines is no
    address. *)
Theorem failed_validation_sends_nothing :
  (forall fs this config st validation,
     readRecipientsFile fs (fr_recipientsFile config) = Fulfilled validation ->
     isValid validation = false ->
     exists result,
       sendMessagesFromFile fs this config st = (Normal result, st) /\
       result = {| totalSent := 0; totalFailed := 0; results := [];
                   overallSuccess := false |} /\
       overallSuccess result = false /\ totalFailed result = 0)
  /\
  (forall fs filePath, exists validation,
     readRecipientsFile fs filePath = Fulfilled validation /\
     ((exists e, access fs filePath = Rejected e) -> isValid validation = false) /\
     ((exists e, readFile fs filePath = Rejected e) -> isValid validation = false) /\
     ((exists fileContent line e,
         readFile fs filePath = Fulfilled fileContent /\
         In line (recipientLines fileContent) /\
         newPublicKey line = Rejected e) -> isValid validation = false)).
Proof.
  split.
  - intros fs this config st validation Hread Hfail.
    unfold sendMessagesFromFile; simpl. rewrite Hread; simpl. rewrite Hfail; simpl.
    by eexists.
  - intros fs filePath.
    destruct (readRecipientsFile_total fs filePath) as [validation Hread].
    exists validation. split_and!; [done|..].
    + intros [e He]. by eapply readRecipientsFile_no_access.
    + intros [e He]. by eapply readRecipientsFile_unreadable.
    + intros (fileContent & line & e & Hfile & Hin & Hbad).
      by eapply readRecipientsFile_invalid_address.
Qed.

(** * Further properties of the code *)

(** ** Strings *)

Lemma append_cons x (a b : string) : String x a ++ b = String x (a ++ b).
Proof. reflexivity. Qed.

Lemma append_empty_l (b : string) : "" ++ b = b.
Proof. reflexivity. Qed.

Lemma length_append (a b : string) :
  String.length (a ++ b) = (String.length a + String.length b)%nat.
Proof.
  induction a as [|x a IH]; [done|]. rewrite append_cons; simpl. by rewrite IH.
Qed.

Lemma append_empty_r (a : string) : a ++ "" = a.
Proof. induction a as [|x a IH]; [done|]. by rewrite append_cons, IH. Qed.

Lemma append_assoc (a b c : string) : (a ++ b) ++ c = a ++ b ++ c.
Proof. induction a as [|x a IH]; [done|]. by rewrite !append_cons, IH. Qed.

Lemma append_cancel_l (a b c : string) : a ++ b = a ++ c -> b = c.
Proof.
  induction a as [|x a IH]; [done|]. rewrite !append_cons. intros [= Heq]. auto.
Qed.

Lemma append_cancel_r (a b c : string) : a ++ c = b ++ c -> a = b.
Proof.
  revert b. induction a as [|x a IH]; intros [|y b] Heq.
  - done.
  - apply (f_equal String.length) in Heq.
    rewrite append_empty_l, length_append in Heq. simpl in Heq. lia.
  - apply (f_equal String.length) in Heq.
    rewrite append_empty_l, length_append in Heq. simpl in Heq. lia.
  - rewrite !append_cons in Heq. injection Heq as -> Heq. f_equal. by apply IH.
Qed.

Lemma prefix_append (a b : string) : String.prefix a (a ++ b) = true.
Proof.
  induction a as [|x a IH]; [by destruct b|].
  rewrite append_cons; simpl. destruct (ascii_dec x x); [done|congruence].
Qed.

(** ** config.ts: explorer links *)

(** X1. An explorer link is the explorer's transaction address followed by
    the signature; it ends there for mainnet-beta and carries
    [?cluster=<network>] otherwise. For one network, two signatures with the
    same link are the same signature. *)
Theorem getExplorerUrl_shape :
  (forall signature,
     getExplorerUrl signature "mainnet-beta"
     = "https://explorer.solana.com/tx/" ++ signature)
  /\
  (forall signature network,
     String.eqb network "mainnet-beta" = false ->
     getExplorerUrl signature network
     = "https://explorer.solana.com/tx/" ++ signature ++ "?cluster=" ++ network)
  /\
  (forall signature network,
     String.prefix ("https://explorer.solana.com/tx/" ++ signature)
       (getExplorerUrl signature network) = true)
  /\
  (forall signature1 signature2 network,
     getExplorerUrl signature1 network = getExplorerUrl signature2 network ->
     signature1 = signature2).
Proof.
  split_and!.
  - intros signature. unfold getExplorerUrl.
    rewrite String.eqb_refl. by rewrite append_empty_r.
  - intros signature network Hnet. unfold getExplorerUrl. by rewrite Hnet.
  - intros signature network. unfold getExplorerUrl.
    rewrite <- append_assoc. apply prefix_append.
  - intros signature1 signature2 network. unfold getExplorerUrl.
    intros Heq%append_cancel_l. by apply append_cancel_r in Heq.
Qed.

(** ** fileUtils.ts: the lines of a recipients file *)

Lemma trimStart_step s :
  trimStart s =
  match afterWhiteSpace s with
  | Some rest => trimStart rest
  | None => s
  end.
Proof.
  destruct s as [|a [|b [|c rest]]]; cbn [trimStart afterWhiteSpace]; [done|..].
  - by destruct (isWhiteSpace1 _).
  - destruct (isWhiteSpace1 _); [done|]. by destruct (isWhiteSpace2 _ _).
  - destruct (isWhiteSpace1 _); [done|]. destruct (isWhiteSpace2 _ _); [done|].
    by destruct (isWhiteSpace3 _ _ _).
Qed.

Lemma afterWhiteSpace_cut s rest :
  afterWhiteSpace s = Some rest ->
  exists w, w <> "" /\ s = w ++ rest.
Proof.
  destruct s as [|a [|b [|c tail]]]; cbn [afterWhiteSpace]; [done|..].
  - destruct (isWhiteSpace1 _); [|done]. intros [= <-]. by exists (String a "").
  - destruct (isWhiteSpace1 _); [intros [= <-]; by exists (String a "")|].
    destruct (isWhiteSpace2 _ _); [|done].
    intros [= <-]. by exists (String a (String b "")).
  - destruct (isWhiteSpace1 _); [intros [= <-]; by exists (String a "")|].
    destruct (isWhiteSpace2 _ _); [intros [= <-]; by exists (String a (String b ""))|].
    destruct (isWhiteSpace3 _ _ _); [|done].
    intros [= <-]. by exists (String a (String b (String c ""))).
Qed.

Lemma afterWhiteSpace_ind (P : string -> Prop) :
  (forall s, (forall rest, afterWhiteSpace s = Some rest -> P rest) -> P s) ->
  forall s, P s.
Proof.
  intros Hstep s. remember (String.length s) as n eqn:Hn. revert s Hn.
  induction n as [n IH] using lt_wf_ind. intros s ->.
  apply Hstep. intros rest Hrest. apply (IH (String.length rest)); [|done].
  apply afterWhiteSpace_cut in Hrest as (w & Hw & ->).
  rewrite length_append. destruct w; [done|simpl; lia].
Qed.

Lemma afterWhiteSpace_trimStart s : afterWhiteSpace (trimStart s) = None.
Proof.
  induction s as [s IH] using afterWhiteSpace_ind. rewrite trimStart_step.
  destruct (afterWhiteSpace s) as [rest|] eqn:Hs; [by apply IH|done].
Qed.

Lemma afterWhiteSpace_append a rest b :
  afterWhiteSpace a = Some rest -> afterWhiteSpace (a ++ b) = Some (rest ++ b).
Proof.
  destruct a as [|x [|y [|z tail]]]; rewrite ?append_cons, ?append_empty_l;
    cbn [afterWhiteSpace]; [done|..].
  - destruct (isWhiteSpace1 _); [|done]. by intros [= <-].
  - destruct (isWhiteSpace1 _); [by intros [= <-]|].
    destruct (isWhiteSpace2 _ _); [|done]. by intros [= <-].
  - destruct (isWhiteSpace1 _); [by intros [= <-]|].
    destruct (isWhiteSpace2 _ _); [by intros [= <-]|].
    destruct (isWhiteSpace3 _ _ _); [|done]. by intros [= <-].
Qed.

Lemma afterWhiteSpace_prefix p q :
  afterWhiteSpace (p ++ q) = None -> afterWhiteSpace p = None.
Proof.
  destruct p as [|x [|y [|z tail]]]; rewrite ?append_cons, ?append_empty_l;
    cbn [afterWhiteSpace]; [done|..].
  - by destruct (isWhiteSpace1 _).
  - destruct (isWhiteSpace1 _); [done|]. by destruct (isWhiteSpace2 _ _).
  - destruct (isWhiteSpace1 _); [done|]. destruct (isWhiteSpace2 _ _); [done|].
    by destruct (isWhiteSpace3 _ _ _).
Qed.

Lemma isBlank_true s : isBlank s = true <-> trimStart s = "".
Proof. unfold isBlank. by destruct (trimStart s). Qed.

Lemma isBlank_append a b :
  isBlank a = true -> isBlank b = true -> isBlank (a ++ b) = true.
Proof.
  rewrite !isBlank_true. intros Ha Hb. revert Ha.
  induction a as [a IH] using afterWhiteSpace_ind.
  rewrite (trimStart_step a), (trimStart_step (a ++ b)).
  destruct (afterWhiteSpace a) as [rest|] eqn:Hrest.
  - rewrite (afterWhiteSpace_append _ _ _ Hrest). by apply IH.
  - intros ->. rewrite append_empty_l. by rewrite <- trimStart_step.
Qed.

Lemma trimEnd_split s : exists w, s = trimEnd s ++ w /\ isBlank w = true.
Proof.
  induction s as [|c s (w & Hs & Hw)]; [by exists ""|].
  cbn [trimEnd]. destruct (isBlank (String c s)) eqn:Hblank.
  - by exists (String c s).
  - exists w. rewrite append_cons. by rewrite <- Hs.
Qed.

Lemma trimEnd_idem s : trimEnd (trimEnd s) = trimEnd s.
Proof.
  induction s as [|c s IH]; [done|].
  cbn [trimEnd]. destruct (isBlank (String c s)) eqn:Hblank; [done|].
  cbn [trimEnd]. rewrite IH.
  destruct (isBlank (String c (trimEnd s))) eqn:Hkept; [|done].
  destruct (trimEnd_split s) as (w & Hs & Hw).
  pose proof (isBlank_append _ _ Hkept Hw) as Hall.
  rewrite append_cons, <- Hs in Hall. congruence.
Qed.

Lemma trimStart_trim s : trimStart (trim s) = trim s.
Proof.
  unfold trim. pose proof (afterWhiteSpace_trimStart s) as Hnone.
  destruct (trimEnd_split (trimStart s)) as (w & Hs & _).
  rewrite Hs in Hnone. apply afterWhiteSpace_prefix in Hnone.
  by rewrite trimStart_step, Hnone.
Qed.

Lemma trim_idem s : trim (trim s) = trim s.
Proof.
  unfold trim at 1. rewrite trimStart_trim. unfold trim. apply trimEnd_idem.
Qed.

Lemma chars_append a b : chars (a ++ b) = (chars a ++ chars b)%list.
Proof.
  induction a as [|x a IH]; [done|]. rewrite append_cons. simpl. by rewrite IH.
Qed.

Lemma chars_trimStart s c : In c (chars (trimStart s)) -> In c (chars s).
Proof.
  induction s as [s IH] using afterWhiteSpace_ind. rewrite trimStart_step.
  destruct (afterWhiteSpace s) as [rest|] eqn:Hrest; [|done].
  intros Hin%IH; [|done].
  apply afterWhiteSpace_cut in Hrest as (w & _ & ->).
  rewrite chars_append, in_app_iff. by right.
Qed.

Lemma chars_trimEnd s c : In c (chars (trimEnd s)) -> In c (chars s).
Proof.
  destruct (trimEnd_split s) as (w & Hs & _). intros Hin.
  rewrite Hs, chars_append, in_app_iff. by left.
Qed.

Lemma chars_trim s c : In c (chars (trim s)) -> In c (chars s).
Proof. unfold trim. intros Hin%chars_trimEnd. by apply chars_trimStart. Qed.

(** What [trim] removes, and what it leaves. *)

Lemma isWhiteSpace2_continuation a b :
  isWhiteSpace2 a b = true -> isContinuation b = true.
Proof.
  unfold isWhiteSpace2, isContinuation.
  rewrite !andb_true_iff, !Nat.eqb_eq, Nat.leb_le, Nat.ltb_lt. lia.
Qed.

Lemma isWhiteSpace3_continuation a b c :
  isWhiteSpace3 a b c = true ->
  isContinuation b = true /\ isContinuation c = true.
Proof.
  unfold isWhiteSpace3, isContinuation.
  rewrite !orb_true_iff, !andb_true_iff, !orb_true_iff, !andb_true_iff,
    !Nat.eqb_eq, !Nat.leb_le, !Nat.ltb_lt. lia.
Qed.

Lemma afterWhiteSpace_append_inv s w rest :
  isOneWhiteSpace w -> s <> "" ->
  afterWhiteSpace (s ++ w) = Some rest ->
  exists rest', afterWhiteSpace s = Some rest' /\ rest = rest' ++ w.
Proof.
  intros [_ Hlead]. destruct w as [|lead w]; [done|].
  destruct s as [|a [|b [|c tail]]]; rewrite ?append_cons, ?append_empty_l;
    cbn [afterWhiteSpace]; [done|..]; intros _.
  - destruct (isWhiteSpace1 _); [intros [= <-]; by eexists|].
    destruct (isWhiteSpace2 _ _) eqn:H2;
      [apply isWhiteSpace2_continuation in H2; congruence|].
    destruct w as [|next w]; [done|].
    destruct (isWhiteSpace3 _ _ _) eqn:H3; [|done].
    apply isWhiteSpace3_continuation in H3 as [? _]. congruence.
  - destruct (isWhiteSpace1 _); [intros [= <-]; by eexists|].
    destruct (isWhiteSpace2 _ _); [intros [= <-]; by eexists|].
    destruct (isWhiteSpace3 _ _ _) eqn:H3; [|done].
    apply isWhiteSpace3_continuation in H3 as [_ ?]. congruence.
  - destruct (isWhiteSpace1 _); [intros [= <-]; by eexists|].
    destruct (isWhiteSpace2 _ _); [intros [= <-]; by eexists|].
    destruct (isWhiteSpace3 _ _ _); [|done]. intros [= <-]. by eexists.
Qed.

Lemma trimStart_append s w :
  isOneWhiteSpace w ->
  trimStart (s ++ w) = if isBlank s then "" else trimStart s ++ w.
Proof.
  intros Hw. induction s as [s IH] using afterWhiteSpace_ind.
  unfold isBlank. rewrite (trimStart_step s).
  destruct (afterWhiteSpace s) as [rest|] eqn:Hrest.
  - rewrite trimStart_step, (afterWhiteSpace_append _ _ _ Hrest).
    by apply IH.
  - destruct s as [|a s].
    + rewrite append_empty_l, trimStart_step. by destruct Hw as [-> _].
    + rewrite trimStart_step.
      destruct (afterWhiteSpace (String a s ++ w)) as [rest|] eqn:Hall; [|done].
      apply afterWhiteSpace_append_inv in Hall as (rest' & Hrest' & _); [|done..].
      congruence.
Qed.

Lemma isBlank_append_one s w :
  isOneWhiteSpace w -> isBlank (s ++ w) = isBlank s.
Proof.
  intros Hw. unfold isBlank at 1. rewrite trimStart_append by done.
  destruct (isBlank s) eqn:Hs; [done|].
  unfold isBlank in Hs. by destruct (trimStart s).
Qed.

Lemma trimEnd_append s w :
  isOneWhiteSpace w -> trimEnd (s ++ w) = trimEnd s.
Proof.
  intros Hw. induction s as [|c s IH].
  - rewrite append_empty_l. destruct w as [|lead w]; [done|].
    cbn [trimEnd]. unfold isBlank. rewrite trimStart_step.
    by destruct Hw as [-> _].
  - rewrite append_cons. cbn [trimEnd]. rewrite <- append_cons.
    rewrite isBlank_append_one by done. by rewrite IH.
Qed.

Lemma trim_whiteSpace w line :
  isOneWhiteSpace w ->
  trim (w ++ line) = trim line /\ trim (line ++ w) = trim line.
Proof.
  intros Hw. unfold trim. split.
  - rewrite trimStart_step.
    destruct Hw as [Hw _]. by rewrite (afterWhiteSpace_append _ _ _ Hw).
  - rewrite trimStart_append by done.
    destruct (isBlank line) eqn:Hblank.
    + apply isBlank_true in Hblank. by rewrite Hblank.
    + by apply trimEnd_append.
Qed.

Lemma afterWhiteSpace_visible c rest :
  isVisibleAscii c = true -> afterWhiteSpace (String c rest) = None.
Proof.
  unfold isVisibleAscii. rewrite andb_true_iff, !Nat.leb_le. intros [Hlo Hhi].
  cbn [afterWhiteSpace].
  assert (H1 : isWhiteSpace1 (nat_of_ascii c) = false).
  { unfold isWhiteSpace1. apply orb_false_iff. split.
    - apply andb_false_iff. right. apply Nat.leb_gt. lia.
    - apply Nat.eqb_neq. lia. }
  assert (H2 : forall b, isWhiteSpace2 (nat_of_ascii c) b = false).
  { intros b. unfold isWhiteSpace2. apply andb_false_iff. left.
    apply Nat.eqb_neq. lia. }
  assert (H3 : forall b d, isWhiteSpace3 (nat_of_ascii c) b d = false).
  { intros b d. unfold isWhiteSpace3.
    replace (nat_of_ascii c =? 225)%nat with false by (symmetry; apply Nat.eqb_neq; lia).
    replace (nat_of_ascii c =? 226)%nat with false by (symmetry; apply Nat.eqb_neq; lia).
    replace (nat_of_ascii c =? 227)%nat with false by (symmetry; apply Nat.eqb_neq; lia).
    replace (nat_of_ascii c =? 239)%nat with false by (symmetry; apply Nat.eqb_neq; lia).
    done. }
  rewrite H1. destruct rest as [|b [|d rest]]; rewrite ?H2, ?H3; done.
Qed.

Lemma trim_visible line :
  Forall (fun c => isVisibleAscii c = true) (chars line) -> trim line = line.
Proof.
  intros Hall. unfold trim.
  assert (Hstart : forall s, Forall (fun c => isVisibleAscii c = true) (chars s) ->
                             trimStart s = s).
  { intros [|c s] Hs; [done|]. apply Forall_cons in Hs as [Hc _].
    by rewrite trimStart_step, afterWhiteSpace_visible. }
  rewrite Hstart by done.
  induction line as [|c line IH]; [done|].
  apply Forall_cons in Hall as [Hc Hall].
  cbn [trimEnd]. unfold isBlank.
  rewrite trimStart_step, afterWhiteSpace_visible by done. by rewrite IH.
Qed.

Lemma splitLines_cons s : exists line lines, splitLines s = line :: lines.
Proof.
  induction s as [|c s (line & lines & IH)]; simpl; [eauto|].
  destruct (Ascii.eqb c newline); [eauto|]. rewrite IH. eauto.
Qed.

Lemma splitLines_no_newline s line :
  In line (splitLines s) -> ~ In newline (chars line).
Proof.
  revert line. induction s as [|c s IH]; simpl; intros line.
  - intros [<-|[]]. simpl. tauto.
  - destruct (Ascii.eqb c newline) eqn:Hc.
    + intros [<-|Hin]; [simpl; tauto|by apply IH].
    + destruct (splitLines_cons s) as (first & lines & Hs). rewrite Hs in *.
      intros [<-|Hin].
      * simpl. intros [Heq|Hin]; [by apply Ascii.eqb_neq in Hc|].
        apply (IH first); [by left|done].
      * apply IH. by right.
Qed.

(** A string without a line break is one line. *)
Lemma splitLines_one_line s :
  ~ In newline (chars s) -> splitLines s = [s].
Proof.
  induction s as [|c s IH]; simpl; [done|]. intros Hno.
  destruct (Ascii.eqb c newline) eqn:Hc.
  - apply Ascii.eqb_eq in Hc. tauto.
  - rewrite IH by tauto. done.
Qed.

(** The lines of two texts joined by a line break are the lines of the one
    followed by the lines of the other. *)
Lemma splitLines_append a b :
  splitLines (a ++ String newline b) = (splitLines a ++ splitLines b)%list.
Proof.
  induction a as [|c a IH].
  - rewrite append_empty_l. reflexivity.
  - rewrite append_cons. simpl. destruct (Ascii.eqb c newline); rewrite IH; [done|].
    destruct (splitLines_cons a) as (line & lines & ->). done.
Qed.

(** X2. The recipients of a file are found line by line: the lines of two
    texts joined by a line break are those of the first followed by those of
    the second; a single line gives its trimmed text, or nothing when that
    is empty or starts with [#]. So every recipient line is non-empty,
    trimmed, no comment and free of line breaks. Trimming removes, at
    either end of a line, each of the white space and line terminator code
    points of the language, given here by their UTF-8 bytes (among them the
    byte order mark U+FEFF and the ideographic space U+3000), and it leaves
    a text of visible ASCII characters as it is. *)
Theorem recipientLines_line_by_line :
  (forall a b,
     recipientLines (a ++ String newline b)
     = (recipientLines a ++ recipientLines b)%list)
  /\
  (forall line,
     ~ In newline (chars line) -> recipientLines line = keptLine line)
  /\
  (forall fileContent line,
     In line (recipientLines fileContent) ->
     line <> "" /\ trim line = line /\ startsWith "#" line = false /\
     ~ In newline (chars line))
  /\
  Forall (fun w => forall line,
            trim (w ++ line) = trim line /\ trim (line ++ w) = trim line)
    (map bytes
       [ [9]; [10]; [11]; [12]; [13]; [32]; [194; 160]; [225; 154; 128];
         [226; 128; 128]; [226; 128; 129]; [226; 128; 130]; [226; 128; 131];
         [226; 128; 132]; [226; 128; 133]; [226; 128; 134]; [226; 128; 135];
         [226; 128; 136]; [226; 128; 137]; [226; 128; 138];
         [226; 128; 168]; [226; 128; 169]; [226; 128; 175]; [226; 129; 159];
         [227; 128; 128]; [239; 187; 191] ])
  /\
  (forall line,
     Forall (fun c => isVisibleAscii c = true) (chars line) -> trim line = line).
Proof.
  split_and!.
  - intros a b. unfold recipientLines.
    by rewrite splitLines_append, map_app, List.filter_app.
  - intros line Hline. unfold recipientLines, keptLine.
    rewrite splitLines_one_line by done. simpl.
    by destruct (_ && _).
  - intros fileContent line. unfold recipientLines.
    rewrite List.filter_In, in_map_iff.
    intros [(raw & <- & Hraw) [Hlen Hcomment]%andb_true_iff].
    split_and!.
    + intros Hempty. rewrite Hempty in Hlen. done.
    + apply trim_idem.
    + by apply negb_true_iff.
    + intros Hin%chars_trim. by apply (splitLines_no_newline fileContent raw).
  - repeat (constructor; [intros line; apply trim_whiteSpace; by split|]).
    constructor.
  - apply trim_visible.
Qed.

(** ** fileUtils.ts: the validation of a recipients file *)

Lemma omap_acceptedKey_cons address rest :
  omap acceptedKey (address :: rest) =
  match acceptedKey address with
  | Some publicKey => publicKey :: omap acceptedKey rest
  | None => omap acceptedKey rest
  end.
Proof. reflexivity. Qed.

Lemma filter_rejectedLine_cons address rest :
  List.filter rejectedLine (address :: rest) =
  match acceptedKey address with
  | Some _ => List.filter rejectedLine rest
  | None => address :: List.filter rejectedLine rest
  end.
Proof. simpl. unfold rejectedLine at 1. by destruct (acceptedKey address). Qed.

Lemma validateAddresses_spec lines : forall valid invalid,
  validateAddresses lines valid invalid =
  ((valid ++ omap acceptedKey lines)%list,
   (invalid ++ List.filter rejectedLine lines)%list).
Proof.
  induction lines as [|address rest IH]; intros valid invalid.
  - simpl. by rewrite !app_nil_r.
  - cbn [validateAddresses].
    rewrite omap_acceptedKey_cons, filter_rejectedLine_cons.
    assert (Hkey : acceptedKey address =
                   match toPublicKey address with
                   | Fulfilled publicKey => Some publicKey
                   | Rejected _ => None
                   end) by reflexivity.
    destruct (toPublicKey address) as [publicKey|e]; rewrite IH, Hkey;
      by rewrite <- app_assoc.
Qed.

Lemma length_omap_filter lines :
  length (omap acceptedKey lines) + length (List.filter rejectedLine lines)
  = length lines.
Proof.
  induction lines as [|address rest IH]; [done|].
  rewrite omap_acceptedKey_cons, filter_rejectedLine_cons.
  destruct (acceptedKey address); simpl; lia.
Qed.

Lemma acceptedKey_newPublicKey address :
  acceptedKey address =
  match newPublicKey address with
  | Fulfilled publicKey => Some publicKey
  | Rejected _ => None
  end.
Proof.
  unfold acceptedKey, toPublicKey, isValidPublicKey; simpl.
  by destruct (newPublicKey address).
Qed.

Lemma omap_acceptedKey (lines : list string) :
  omap acceptedKey lines =
  omap (fun line =>
          match newPublicKey line with
          | Fulfilled publicKey => Some publicKey
          | Rejected _ => None
          end) lines.
Proof.
  induction lines as [|line lines IH]; [done|].
  rewrite omap_acceptedKey_cons, IH, acceptedKey_newPublicKey. done.
Qed.

Lemma filter_rejectedLine (lines : list string) :
  List.filter rejectedLine lines =
  List.filter (fun line =>
                 match newPublicKey line with
                 | Fulfilled _ => false
                 | Rejected _ => true
                 end) lines.
Proof.
  induction lines as [|line lines IH]; [done|].
  rewrite filter_rejectedLine_cons, IH, acceptedKey_newPublicKey. simpl.
  by destruct (newPublicKey line).
Qed.

Lemma omap_acceptedKey_Forall2 (lines : list string) :
  List.filter rejectedLine lines = [] ->
  Forall2 (fun line publicKey => newPublicKey line = Fulfilled publicKey)
    lines (omap acceptedKey lines).
Proof.
  induction lines as [|line lines IH]; [constructor|].
  rewrite omap_acceptedKey_cons, filter_rejectedLine_cons, acceptedKey_newPublicKey.
  destruct (newPublicKey line) as [publicKey|e] eqn:Hline; [|done].
  intros Hrest. constructor; [done|by apply IH].
Qed.

(** What [readRecipientsFile] returns: nothing but an error text, or the
    lines of the file sorted into keys and refused lines. *)
Lemma readRecipientsFile_cases fs filePath :
  (exists text,
     readRecipientsFile fs filePath =
     Fulfilled {| isValid := false; addresses := []; validAddresses := [];
                  invalidAddresses := []; fv_error := Some text |})
  \/
  (exists fileContent,
     access fs filePath = Fulfilled tt /\
     readFile fs filePath = Fulfilled fileContent /\
     recipientLines fileContent <> [] /\
     let lines := recipientLines fileContent in
     let invalid := List.filter rejectedLine lines in
     readRecipientsFile fs filePath =
     Fulfilled {| isValid :=
                    (length invalid =? 0)%nat
                    && (0 <? length (omap acceptedKey lines))%nat;
                  addresses := lines;
                  validAddresses := omap acceptedKey lines;
                  invalidAddresses := invalid;
                  fv_error :=
                    if (0 <? length invalid)%nat
                    then Some ("Invalid addresses found: " ++ join ", " invalid)
                    else None |}).
Proof.
  unfold readRecipientsFile, checkRecipientsFile; simpl.
  destruct (access fs filePath) as [[]|e]; simpl; [|left; eauto].
  destruct (readFile fs filePath) as [fileContent|e]; simpl; [|left; eauto].
  destruct (recipientLines fileContent) as [|line lines] eqn:Hlines;
    [left; simpl; eauto|].
  right. exists fileContent. rewrite Hlines. split_and!; [done..|].
  cbv zeta. rewrite validateAddresses_spec. done.
Qed.

(** X3. Whatever the file system does, [readRecipientsFile] returns a
    value. When the file cannot be accessed or cannot be read, the value is
    not valid, holds no address and carries the text of the code for the one
    case and the message of the error thrown (or "Unknown error reading
    recipients file" when no [Error] was thrown) for the other. When the
    file was read, [addresses] are the address lines of its content in file
    order, [validAddresses] the keys that [new PublicKey] builds from those
    it accepts and [invalidAddresses] the lines it refuses, both in the
    order of the lines and without merging duplicates; the error text names
    the empty file or lists the refused lines. In every case the two lists
    together are as long as [addresses], the result is valid exactly when
    there is an address line and none is invalid, and it carries an error
    text exactly when it is not valid. *)
Theorem readRecipientsFile_sorts_the_lines :
  forall fs filePath, exists validation,
    readRecipientsFile fs filePath = Fulfilled validation /\
    (forall e,
       access fs filePath = Rejected e ->
       validation =
       {| isValid := false; addresses := []; validAddresses := [];
          invalidAddresses := [];
          fv_error := Some ("Recipients file '" ++ filePath
                            ++ "' does not exist or is not readable") |}) /\
    (forall e,
       access fs filePath = Fulfilled tt ->
       readFile fs filePath = Rejected e ->
       validation =
       {| isValid := false; addresses := []; validAddresses := [];
          invalidAddresses := [];
          fv_error :=
            Some match e with
                 | ErrorInstance message => message
                 | OtherValue => "Unknown error reading recipients file"
                 end |}) /\
    (forall fileContent,
       access fs filePath = Fulfilled tt ->
       readFile fs filePath = Fulfilled fileContent ->
       addresses validation = recipientLines fileContent /\
       validAddresses validation =
         omap (fun line =>
                 match newPublicKey line with
                 | Fulfilled publicKey => Some publicKey
                 | Rejected _ => None
                 end) (recipientLines fileContent) /\
       invalidAddresses validation =
         List.filter (fun line =>
                        match newPublicKey line with
                        | Fulfilled _ => false
                        | Rejected _ => true
                        end) (recipientLines fileContent) /\
       (recipientLines fileContent = [] ->
        fv_error validation =
          Some ("No valid addresses found in '" ++ filePath
                ++ "'. File is empty or contains only comments.")) /\
       (invalidAddresses validation <> [] ->
        fv_error validation =
          Some ("Invalid addresses found: "
                ++ join ", " (invalidAddresses validation)))) /\
    length (validAddresses validation) + length (invalidAddresses validation)
      = length (addresses validation) /\
    (isValid validation = true <->
     addresses validation <> [] /\ invalidAddresses validation = []) /\
    (fv_error validation = None <-> isValid validation = true).
Proof.
  intros fs filePath. unfold readRecipientsFile, checkRecipientsFile; simpl.
  destruct (access fs filePath) as [[]|e]; simpl.
  2: { eexists; split; [done|]; simpl. split_and!; try done.
       split; [done|]. intros [Hne _]. by destruct Hne. }
  destruct (readFile fs filePath) as [fileContent|e]; simpl.
  2: { eexists; split; [done|]; simpl. split_and!; try done.
       - by intros e' _ [= <-].
       - split; [done|]. intros [Hne _]. by destruct Hne. }
  destruct (recipientLines fileContent) as [|first others] eqn:Hlines.
  { eexists; split; [done|]; simpl. split_and!; try done.
    - intros content _ [= <-]. rewrite Hlines. by split_and!.
    - split; [done|]. intros [Hne _]. by destruct Hne. }
  rewrite <- Hlines. cbv zeta.
  replace (length (recipientLines fileContent) =? 0)%nat with false
    by (by rewrite Hlines).
  rewrite validateAddresses_spec, !app_nil_l.
  eexists; split; [done|]; simpl.
  pose proof (length_omap_filter (recipientLines fileContent)) as Hlen.
  assert (Hall : 0 < length (recipientLines fileContent))
    by (rewrite Hlines; simpl; lia).
  assert (Hne : recipientLines fileContent <> []) by (by rewrite Hlines).
  pose proof (omap_acceptedKey (recipientLines fileContent)) as Hkeys.
  pose proof (filter_rejectedLine (recipientLines fileContent)) as Hbad.
  clear Hlines.
  set (all := recipientLines fileContent) in *.
  set (valid := omap acceptedKey all) in *.
  set (invalid := List.filter rejectedLine all) in *.
  clearbody valid invalid.
  assert (Hfile :
    forall content, Fulfilled () = Fulfilled () ->
      Fulfilled fileContent = Fulfilled content ->
      all = recipientLines content /\
      valid = omap (fun line =>
                      match newPublicKey line with
                      | Fulfilled publicKey => Some publicKey
                      | Rejected _ => None
                      end) (recipientLines content) /\
      invalid = List.filter (fun line =>
                               match newPublicKey line with
                               | Fulfilled _ => false
                               | Rejected _ => true
                               end) (recipientLines content) /\
      (recipientLines content = [] ->
       (if (0 <? length invalid)%nat
        then Some ("Invalid addresses found: " ++ join ", " invalid)
        else None) =
       Some ("No valid addresses found in '" ++ filePath
             ++ "'. File is empty or contains only comments.")) /\
      (invalid <> [] ->
       (if (0 <? length invalid)%nat
        then Some ("Invalid addresses found: " ++ join ", " invalid)
        else None) =
       Some ("Invalid addresses found: " ++ join ", " invalid))).
  { intros content _ [= <-]. fold all. split_and!; [done..| |].
    - intros Hnone. by destruct Hne.
    - by destruct invalid. }
  clearbody all.
  destruct invalid as [|bad rest]; simpl in *.
  - assert (Hvalid : (0 <? length valid)%nat = true) by (apply Nat.ltb_lt; lia).
    rewrite Hvalid. split_and!; done.
  - split_and!; try done. split; [done|]. by intros [_ ?].
Qed.

(** ** walletUtils.ts: addresses *)

(** X4. [isValidPublicKey] holds exactly of the strings that
    [new PublicKey] accepts; [toPublicKey] returns the key that
    [new PublicKey] builds, and on any other string it throws an [Error]
    whose message is ["Invalid Solana address: "] followed by the string,
    whatever the SDK threw. *)
Theorem toPublicKey_follows_the_sdk :
  forall address,
    (isValidPublicKey address = true <->
     exists publicKey, newPublicKey address = Fulfilled publicKey) /\
    (forall publicKey,
       toPublicKey address = Fulfilled publicKey <->
       newPublicKey address = Fulfilled publicKey) /\
    (forall e,
       toPublicKey address = Rejected e <->
       (exists e', newPublicKey address = Rejected e') /\
       e = ErrorInstance ("Invalid Solana address: " ++ address)).
Proof.
  intros address. unfold toPublicKey, isValidPublicKey; simpl.
  destruct (newPublicKey address) as [publicKey|e']; simpl.
  - split_and!.
    + split; eauto.
    + done.
    + intros e. split; [done|]. by intros [[? ?] _].
  - split_and!.
    + split; [done|]. by intros [? ?].
    + done.
    + intros e. split.
      * intros [= <-]. eauto.
      * by intros [_ ->].
Qed.

(** ** messageSender.ts: sending to the recipients of a file *)

Lemma sendBulkMessages_normal this config st :
  exists result st', sendBulkMessages this config st = (Normal result, st').
Proof. rewrite sendBulkMessages_eq. eauto. Qed.

Lemma validateRecipients_valid fs filePath validation :
  readRecipientsFile fs filePath = Fulfilled validation ->
  isValid validation = true ->
  validateRecipients validation = Fulfilled tt /\
  validAddresses validation <> [] /\
  length (validAddresses validation) = length (addresses validation) /\
  exists fileContent,
    access fs filePath = Fulfilled tt /\
    readFile fs filePath = Fulfilled fileContent /\
    addresses validation = recipientLines fileContent /\
    Forall2 (fun line publicKey => newPublicKey line = Fulfilled publicKey)
      (recipientLines fileContent) (validAddresses validation).
Proof.
  intros Hread Hvalid.
  destruct (readRecipientsFile_cases fs filePath)
    as [[text Hcase]|(fileContent & Haccess & Hfile & Hlines & Hcase)];
    rewrite Hcase in Hread; injection Hread as <-; [done|].
  simpl in Hvalid. apply andb_true_iff in Hvalid as [Hbad Hgood].
  pose proof (length_omap_filter (recipientLines fileContent)) as Hlen.
  unfold validateRecipients; simpl. rewrite Hbad, Hgood; simpl.
  apply Nat.eqb_eq in Hbad.
  pose proof (omap_acceptedKey_Forall2 (recipientLines fileContent)) as Hkeys.
  rewrite Hbad, Nat.add_0_r in Hlen.
  destruct (omap acceptedKey (recipientLines fileContent)) eqn:Hvalid;
    [simpl in Hgood; done|].
  split_and!; [done..|]. exists fileContent. split_and!; [done..|].
  apply Hkeys. by destruct (List.filter rejectedLine (recipientLines fileContent)).
Qed.

Lemma sendMessagesFromFile_valid fs this config st validation :
  readRecipientsFile fs (fr_recipientsFile config) = Fulfilled validation ->
  isValid validation = true ->
  sendMessagesFromFile fs this config st
    = sendBulkMessages this (bulkConfigOfFile config validation) st.
Proof.
  intros Hread Hvalid.
  destruct (validateRecipients_valid _ _ _ Hread Hvalid) as (Hcheck & _ & Hlen & _).
  unfold sendMessagesFromFile; simpl. rewrite Hread; simpl.
  rewrite Hvalid, Hcheck; simpl.
  fold (bulkConfigOfFile config validation).
  by destruct (sendBulkMessages_normal this (bulkConfigOfFile config validation) st)
    as (result & st' & ->).
Qed.

(** X5. When the recipients file is valid, the file could be accessed and
    read, its address lines are the [addresses] of the validation, and
    [new PublicKey] has built a key from each of them: these keys, one per
    address line and in the order of the lines, are the [validAddresses].
    The check of [validateRecipients] passes, and [sendMessagesFromFile] is
    [sendBulkMessages] on these keys as recipients with the options of the
    call. *)
Theorem sendMessagesFromFile_on_a_valid_file :
  forall fs this config st validation,
    readRecipientsFile fs (fr_recipientsFile config) = Fulfilled validation ->
    isValid validation = true ->
    validateRecipients validation = Fulfilled tt /\
    (exists fileContent,
       access fs (fr_recipientsFile config) = Fulfilled tt /\
       readFile fs (fr_recipientsFile config) = Fulfilled fileContent /\
       addresses validation = recipientLines fileContent /\
       Forall2 (fun line publicKey => newPublicKey line = Fulfilled publicKey)
         (recipientLines fileContent) (validAddresses validation)) /\
    sendMessagesFromFile fs this config st
      = sendBulkMessages this
          {| message := fr_message config;
             recipientAddresses := validAddresses validation;
             senderKeypair := fr_senderKeypair config;
             connection := fr_connection config;
             commitment := fr_commitment config;
             skipPreflight := fr_skipPreflight config;
             delayBetweenTx := fr_delayBetweenTx config;
             continueOnError := fr_continueOnError config |} st.
Proof.
  intros fs this config st validation Hread Hvalid.
  destruct (validateRecipients_valid _ _ _ Hread Hvalid)
    as (Hcheck & _ & _ & Hfile).
  split_and!; [done..|]. by apply sendMessagesFromFile_valid.
Qed.

(** X6. [sendMessagesFromFile] never throws: for every file system, sender
    and configuration it returns a value, in which [totalSent + totalFailed]
    is the number of entries, there are at most as many entries as address
    lines in the file, and [overallSuccess] is true only if nothing failed
    and at least one message was sent. *)
Theorem sendMessagesFromFile_returns :
  forall fs this config st, exists validation result st',
    readRecipientsFile fs (fr_recipientsFile config) = Fulfilled validation /\
    sendMessagesFromFile fs this config st = (Normal result, st') /\
    totalSent result + totalFailed result = length (results result) /\
    length (results result) <= length (addresses validation) /\
    (overallSuccess result = true ->
     totalFailed result = 0 /\ 0 < totalSent result).
Proof.
  intros fs this config st.
  destruct (readRecipientsFile_total fs (fr_recipientsFile config))
    as [validation Hread].
  exists validation.
  destruct (isValid validation) eqn:Hvalid.
  - rewrite (sendMessagesFromFile_valid fs this config st validation Hread Hvalid).
    destruct (validateRecipients_valid _ _ _ Hread Hvalid) as (_ & Hne & Hlen & _).
    rewrite sendBulkMessages_eq; simpl.
    set (L := messagesLoop this (bulkConfigOfFile config validation)).
    destruct (run_counts L (validAddresses validation) st)
      as (Hsent & Hfailed & Hsum & Hle).
    eexists _, _; split_and!; [done..| |]; simpl.
    + by rewrite <- Hlen.
    + intros Hok%Nat.eqb_eq. split; [done|].
      fold L in Hok. rewrite Hok, Nat.add_0_r in Hsum. rewrite Hsum.
      rewrite (run_length_results L).
      destruct (validAddresses validation) as [|x rest]; [done|].
      destruct (iterations_cons_pos L (st_calls st) x rest) as [p ->]. lia.
  - unfold sendMessagesFromFile; simpl. rewrite Hread; simpl. rewrite Hvalid; simpl.
    eexists _, _; split_and!; [done..|simpl; lia|done].
Qed.

(** ** messageSender.ts: more on the two bulk loops *)

Section LoopMore.
Context {T : Type} (L : Loop T).

Lemma iterations_all_succeed pending : forall c,
  (forall k x, pending !! k = Some x ->
     succeeded (loop_outcome L (c + k) x) = true) ->
  iterations L c pending = length pending /\
  failures (entriesFrom L c pending) = 0.
Proof.
  induction pending as [|x rest IH]; intros c Hall; [done|].
  assert (Hx : succeeded (loop_outcome L c x) = true).
  { rewrite <- (Nat.add_0_r c). by apply Hall. }
  destruct (IH (S c)) as [Hn Hf].
  { intros k y Hy. replace (S c + k) with (c + S k) by lia. by apply Hall. }
  simpl. unfold stopsAfter. rewrite Hx; simpl. rewrite Hn.
  split; [done|]. by rewrite failures_cons, success_entryFor, Hx.
Qed.

Lemma iterations_all_reject pending : forall c,
  (forall n x, exists e, loop_outcome L n x = Rejected e) ->
  iterations L c pending =
    (if truthyBool (loop_continueOnError L) then length pending
     else min 1 (length pending)).
Proof.
  intros c Hrej. revert c.
  induction pending as [|x rest IH]; intros c; simpl; [by destruct (truthyBool _)|].
  destruct (Hrej c x) as [e He]. unfold stopsAfter. rewrite He; simpl.
  specialize (IH (S c)).
  destruct (truthyBool (loop_continueOnError L)); simpl; [by rewrite IH|done].
Qed.

Lemma eventsFrom_all_reject xs : forall c i,
  (forall n x, exists e, loop_outcome L n x = Rejected e) ->
  eventsFrom L c i xs = map (loop_call L) xs.
Proof.
  intros c i Hrej. revert c i.
  induction xs as [|x rest IH]; intros c i; simpl; [done|].
  destruct (Hrej c x) as [e He]. unfold pauseAfter. rewrite He. by rewrite IH.
Qed.

Lemma entriesFrom_all_reject xs : forall c,
  (forall n x, exists e, loop_outcome L n x = Rejected e) ->
  Forall (fun r => success r = false /\ signature r = "" /\
                   explorerUrl r = None /\
                   exists e, error r = Some (errorMessageOf e))
         (entriesFrom L c xs).
Proof.
  intros c Hrej. revert c.
  induction xs as [|x rest IH]; intros c; simpl; [done|].
  constructor; [|apply IH].
  destruct (Hrej c x) as [e ->]. simpl. eauto.
Qed.

(** The timers of a run: each for the configured delay, and fewer than the
    iterations. *)
Lemma timersOf_pauseAfter i o :
  timersOf (pauseAfter L i o) = pauseAfter L i o.
Proof.
  unfold pauseAfter. destruct o as [answer|e]; [|done].
  destruct (loop_delayBetweenTx L) as [ms|]; [|done]. by destruct (_ && _).
Qed.

Lemma pauseAfter_delay i o e :
  In e (pauseAfter L i o) ->
  exists ms, loop_delayBetweenTx L = Some ms /\ ms <> 0%Z /\ e = SetTimeout ms.
Proof.
  unfold pauseAfter. destruct o as [answer|e']; [|done].
  destruct (loop_delayBetweenTx L) as [ms|]; [|done].
  destruct (_ && negb (ms =? 0)%Z && _) eqn:Hcond; [|done].
  intros [<-|[]]. exists ms. split_and!; [done| |done].
  apply andb_true_iff in Hcond as [[_ Hms]%andb_true_iff _].
  apply negb_true_iff in Hms. by apply Z.eqb_neq.
Qed.

Lemma length_pauseAfter i o : length (pauseAfter L i o) <= 1.
Proof.
  unfold pauseAfter. destruct o as [answer|e]; [|simpl; lia].
  destruct (loop_delayBetweenTx L) as [ms|]; [|simpl; lia].
  destruct (_ && _); simpl; lia.
Qed.

Lemma timersOf_eventsFrom_delay xs : forall c i e,
  (forall x, isCall (loop_call L x) = true) ->
  In e (timersOf (eventsFrom L c i xs)) ->
  exists ms, loop_delayBetweenTx L = Some ms /\ ms <> 0%Z /\ e = SetTimeout ms.
Proof.
  intros c i e Hcall. revert c i.
  induction xs as [|x rest IH]; intros c i; simpl; [done|].
  unfold timersOf, isTimer in *; simpl. rewrite Hcall; simpl.
  rewrite List.filter_app, in_app_iff. intros [Hin|Hin]; [|by eapply IH].
  apply List.filter_In in Hin as [Hin _]. by eapply pauseAfter_delay.
Qed.

Lemma timersOf_eventsFrom_count pending : forall c i,
  (forall x, isCall (loop_call L x) = true) ->
  i + length pending = loop_length L ->
  length (timersOf (eventsFrom L c i (take (iterations L c pending) pending)))
  <= iterations L c pending - 1.
Proof.
  intros c i Hcall. revert c i.
  induction pending as [|x rest IH]; intros c i Hlen; [done|].
  simpl iterations. destruct (stopsAfter L (loop_outcome L c x)) eqn:Hstop.
  - simpl. rewrite pauseAfter_stop by done. simpl.
    unfold timersOf, isTimer; simpl. by rewrite Hcall.
  - simpl in Hlen. specialize (IH (S c) (S i)). simpl.
    unfold timersOf, isTimer in *; simpl. rewrite Hcall; simpl.
    rewrite List.filter_app, length_app.
    destruct rest as [|y rest'].
    + simpl. rewrite pauseAfter_last by (simpl in Hlen; lia). done.
    + destruct (iterations_cons_pos L (S c) y rest') as [p Hp].
      rewrite Hp in *. specialize (IH ltac:(simpl in *; lia)).
      pose proof (length_pauseAfter i (loop_outcome L c x)) as Hone.
      pose proof (List.filter_length_le (fun e => negb (isCall e))
                    (pauseAfter L i (loop_outcome L c x))) as Hle.
      simpl in *. lia.
Qed.

(** Stopping at the first failure: every entry before the last one is a
    success, and at most one failure is recorded. *)
Lemma entriesFrom_stop pending : forall c,
  truthyBool (loop_continueOnError L) = false ->
  failures (entriesFrom L c (take (iterations L c pending) pending)) <= 1 /\
  forall k r,
    entriesFrom L c (take (iterations L c pending) pending) !! k = Some r ->
    k + 1 < iterations L c pending -> success r = true.
Proof.
  intros c Hcoe. revert c.
  induction pending as [|x rest IH]; intros c;
    [split; [unfold failures; simpl; lia|done]|].
  simpl iterations. unfold stopsAfter. rewrite Hcoe, andb_true_r.
  destruct (succeeded (loop_outcome L c x)) eqn:Hx; simpl.
  - destruct (IH (S c)) as [Hfail Hbefore].
    rewrite failures_cons, success_entryFor, Hx. split; [simpl; lia|].
    intros [|k] r; simpl.
    + intros [= <-] _. by rewrite success_entryFor.
    + intros Hr Hk. apply (Hbefore k r Hr). lia.
  - rewrite failures_cons, success_entryFor, Hx.
    split; [unfold failures; simpl; lia|].
    intros k r _ Hk. lia.
Qed.

End LoopMore.

Lemma successes_none rs :
  Forall (fun r => success r = false) rs -> successes rs = 0.
Proof.
  induction 1 as [|r rs Hr _ IH]; [done|].
  by rewrite successes_cons, Hr, IH.
Qed.

Section RunMore.
Context {T : Type} (L : Loop T) (xs : list T) (st : State).

Let final := runFrom L 0 xs (declared st).

Lemma run_all_succeed :
  (forall k x, xs !! k = Some x ->
     succeeded (loop_outcome L (st_calls st + k) x) = true) ->
  length (st_results final) = length xs /\
  st_totalSent final = length xs /\
  st_totalFailed final = 0 /\
  Forall (fun r => success r = true) (st_results final).
Proof.
  intros Hall. unfold final.
  destruct (iterations_all_succeed L xs (st_calls st) Hall) as [Hn Hf].
  rewrite run_state, Hn, firstn_all; simpl.
  pose proof (successes_failures (entriesFrom L (st_calls st) xs)) as Hsum.
  rewrite Hf, length_entriesFrom in *. split_and!; [done|lia|done|].
  apply Forall_lookup. intros k r. rewrite entriesFrom_lookup.
  destruct (xs !! k) as [x|] eqn:Hx; simpl; [|done].
  intros [= <-]. rewrite success_entryFor. by apply Hall.
Qed.

Lemma run_timers :
  (forall x, isCall (loop_call L x) = true) ->
  loop_length L = length xs ->
  exists events,
    st_trace final = (st_trace st ++ events)%list /\
    (forall e, In e (timersOf events) ->
       exists ms, loop_delayBetweenTx L = Some ms /\ ms <> 0%Z /\
                  e = SetTimeout ms) /\
    length (timersOf events) <= length (st_results final) - 1 /\
    length (callsOf events) = length (st_results final).
Proof.
  intros Hcall Hlen. unfold final. rewrite run_length_results, run_state; simpl.
  eexists; split_and!; [done|..].
  - intros e. by apply timersOf_eventsFrom_delay.
  - apply timersOf_eventsFrom_count; [done|]. simpl. lia.
  - rewrite callsOf_eventsFrom by done. rewrite length_map. apply length_done.
Qed.

Lemma run_all_reject :
  (forall n x, exists e, loop_outcome L n x = Rejected e) ->
  st_trace final
    = (st_trace st ++ map (loop_call L) (take (length (st_results final)) xs))%list /\
  length (st_results final) =
    (if truthyBool (loop_continueOnError L) then length xs
     else min 1 (length xs)) /\
  st_totalSent final = 0 /\
  Forall (fun r => success r = false /\ signature r = "" /\
                   explorerUrl r = None /\
                   exists e, error r = Some (errorMessageOf e))
         (st_results final).
Proof.
  intros Hrej. unfold final.
  rewrite run_length_results, run_state; simpl.
  pose proof (entriesFrom_all_reject L
                (take (iterations L (st_calls st) xs) xs) (st_calls st) Hrej) as Hall.
  split_and!.
  - by rewrite eventsFrom_all_reject.
  - by apply iterations_all_reject.
  - apply successes_none. eapply Forall_impl; [exact Hall|]. by intros r [? _].
  - done.
Qed.

Lemma run_stop :
  truthyBool (loop_continueOnError L) = false ->
  st_totalFailed final <= 1 /\
  forall k r, st_results final !! k = Some r ->
    k + 1 < length (st_results final) -> success r = true.
Proof.
  intros Hcoe. unfold final. rewrite run_length_results, run_state; simpl.
  by apply entriesFrom_stop.
Qed.

End RunMore.

(** X7. When every single operation of a run succeeds, both bulk methods
    process the whole list whatever [continueOnError] is: one successful
    entry per work item, [totalSent] the number of items, [totalFailed] 0
    and [overallSuccess] true. *)
Theorem all_operations_succeed :
  (forall this config st,
     (forall k recipient, recipientAddresses config !! k = Some recipient ->
        succeeded (sendMessageMethod this (st_calls st + k)
                     (messageConfigFor config recipient)) = true) ->
     exists result st',
       sendBulkMessages this config st = (Normal result, st') /\
       length (results result) = length (recipientAddresses config) /\
       totalSent result = length (recipientAddresses config) /\
       totalFailed result = 0 /\
       overallSuccess result = true /\
       Forall (fun r => success r = true) (results result))
  /\
  (forall this config st,
     (forall k message, memoMessages config !! k = Some message ->
        succeeded (sendMemoOnlyMethod this (st_calls st + k)
                     (memoConfigFor config message)) = true) ->
     exists result st',
       sendBulkMemoOnly this config st = (Normal result, st') /\
       length (results result) = length (memoMessages config) /\
       totalSent result = length (memoMessages config) /\
       totalFailed result = 0 /\
       overallSuccess result = true /\
       Forall (fun r => success r = true) (results result)).
Proof.
  split.
  - intros this config st Hall. rewrite sendBulkMessages_eq; simpl.
    destruct (run_all_succeed (messagesLoop this config) _ st Hall)
      as (Hlen & Hsent & Hfailed & Hok).
    eexists _, _; split; [done|]. simpl. rewrite Hfailed. split_and!; done.
  - intros this config st Hall. rewrite sendBulkMemoOnly_eq; simpl.
    destruct (run_all_succeed (memosLoop this config) _ st Hall)
      as (Hlen & Hsent & Hfailed & Hok).
    eexists _, _; split; [done|]. simpl. rewrite Hfailed. split_and!; done.
Qed.

(** X8. In a run of either bulk method, with any single operations, every
    timer set is for the configured [delayBetweenTx], which is then present
    and not 0; there are fewer timers than entries (none when there is no
    entry), and exactly one operation is invoked per entry: nothing is
    retried. *)
Theorem timers_of_a_run :
  (forall this config st, exists result st' events,
     sendBulkMessages this config st = (Normal result, st') /\
     st_trace st' = (st_trace st ++ events)%list /\
     (forall e, In e (timersOf events) ->
        exists ms, delayBetweenTx config = Some ms /\ ms <> 0%Z /\
                   e = SetTimeout ms) /\
     length (timersOf events) <= length (results result) - 1 /\
     length (callsOf events) = length (results result))
  /\
  (forall this config st, exists result st' events,
     sendBulkMemoOnly this config st = (Normal result, st') /\
     st_trace st' = (st_trace st ++ events)%list /\
     (forall e, In e (timersOf events) ->
        exists ms, bm_delayBetweenTx config = Some ms /\ ms <> 0%Z /\
                   e = SetTimeout ms) /\
     length (timersOf events) <= length (results result) - 1 /\
     length (callsOf events) = length (results result)).
Proof.
  split.
  - intros this config st. rewrite sendBulkMessages_eq; simpl.
    destruct (run_timers (messagesLoop this config) (recipientAddresses config) st
                (isCall_messages this config) eq_refl)
      as (events & Htrace & Htimers & Hcount & Hcalls).
    by eexists _, _, events.
  - intros this config st. rewrite sendBulkMemoOnly_eq; simpl.
    destruct (run_timers (memosLoop this config) (memoMessages config) st
                (isCall_memos this config) eq_refl)
      as (events & Htrace & Htimers & Hcount & Hcalls).
    by eexists _, _, events.
Qed.

(** X9. When the single operation throws at every invocation, the [catch]
    branch of the loop records each attempt as a failure: the entry of an
    item has an empty signature, no link and, as its error, the message of
    the [Error] that the operation threw for this item, or "Unknown error"
    when the thrown value is no [Error]. No timer is ever set, whatever
    [delayBetweenTx] is: the events of the run are the invocations alone.
    All items are attempted when [continueOnError] is true, and only the
    first otherwise. *)
Theorem thrown_operations_are_recorded_without_delay :
  (forall this config st,
     (forall n c, exists e, sendMessageMethod this n c = Rejected e) ->
     exists result st',
       sendBulkMessages this config st = (Normal result, st') /\
       st_trace st' =
         (st_trace st ++
          map (fun recipient => SendMessageCall (messageConfigFor config recipient))
              (take (length (results result)) (recipientAddresses config)))%list /\
       length (results result) =
         (if truthyBool (continueOnError config)
          then length (recipientAddresses config)
          else min 1 (length (recipientAddresses config))) /\
       totalSent result = 0 /\
       forall k r, results result !! k = Some r ->
         exists recipient e,
           recipientAddresses config !! k = Some recipient /\
           sendMessageMethod this (st_calls st + k)
             (messageConfigFor config recipient) = Rejected e /\
           r = {| recipientAddress := toBase58 recipient;
                  signature := "";
                  success := false;
                  error := Some match e with
                                | ErrorInstance text => text
                                | OtherValue => "Unknown error"
                                end;
                  explorerUrl := None |})
  /\
  (forall this config st,
     (forall n c, exists e, sendMemoOnlyMethod this n c = Rejected e) ->
     exists result st',
       sendBulkMemoOnly this config st = (Normal result, st') /\
       st_trace st' =
         (st_trace st ++
          map (fun message => SendMemoOnlyCall (memoConfigFor config message))
              (take (length (results result)) (memoMessages config)))%list /\
       length (results result) =
         (if truthyBool (bm_continueOnError config)
          then length (memoMessages config)
          else min 1 (length (memoMessages config))) /\
       totalSent result = 0 /\
       forall k r, results result !! k = Some r ->
         exists message e,
           memoMessages config !! k = Some message /\
           sendMemoOnlyMethod this (st_calls st + k)
             (memoConfigFor config message) = Rejected e /\
           r = {| recipientAddress := "memo-only";
                  signature := "";
                  success := false;
                  error := Some match e with
                                | ErrorInstance text => text
                                | OtherValue => "Unknown error"
                                end;
                  explorerUrl := None |}).
Proof.
  split.
  - intros this config st Hrej. rewrite sendBulkMessages_eq; simpl.
    destruct (run_all_reject (messagesLoop this config) (recipientAddresses config) st)
      as (Htrace & Hlen & Hsent & _); [by intros n x; apply Hrej|].
    eexists _, _; split_and!; [done..|]. simpl. intros k r Hk.
    apply (run_entry (messagesLoop this config)) in Hk as (x & Hx & ->).
    destruct (Hrej (st_calls st + k) (messageConfigFor config x)) as [e He].
    exists x, e. split_and!; [done..|]. simpl. rewrite He. simpl.
    by destruct e.
  - intros this config st Hrej. rewrite sendBulkMemoOnly_eq; simpl.
    destruct (run_all_reject (memosLoop this config) (memoMessages config) st)
      as (Htrace & Hlen & Hsent & _); [by intros n x; apply Hrej|].
    eexists _, _; split_and!; [done..|]. simpl. intros k r Hk.
    apply (run_entry (memosLoop this config)) in Hk as (x & Hx & ->).
    destruct (Hrej (st_calls st + k) (memoConfigFor config x)) as [e He].
    exists x, e. split_and!; [done..|]. simpl. rewrite He. simpl.
    by destruct e.
Qed.

(** X10. With [continueOnError] false or absent, a run of either bulk
    method records at most one failure, and every entry before the last one
    is a success. *)
Theorem stop_on_error_records_one_failure :
  (forall this config st,
     truthyBool (continueOnError config) = false ->
     exists result st',
       sendBulkMessages this config st = (Normal result, st') /\
       totalFailed result <= 1 /\
       forall k r, results result !! k = Some r ->
         k + 1 < length (results result) -> success r = true)
  /\
  (forall this config st,
     truthyBool (bm_continueOnError config) = false ->
     exists result st',
       sendBulkMemoOnly this config st = (Normal result, st') /\
       totalFailed result <= 1 /\
       forall k r, results result !! k = Some r ->
         k + 1 < length (results result) -> success r = true).
Proof.
  split.
  - intros this config st Hcoe. rewrite sendBulkMessages_eq; simpl.
    destruct (run_stop (messagesLoop this config) (recipientAddresses config) st Hcoe)
      as [Hone Hbefore].
    by eexists _, _.
  - intros this config st Hcoe. rewrite sendBulkMemoOnly_eq; simpl.
    destruct (run_stop (memosLoop this config) (memoMessages config) st Hcoe)
      as [Hone Hbefore].
    by eexists _, _.
Qed.

(** ** messageSender.ts: what a single operation submits *)


(** X12. A per-call [skipPreflight: false] is the same as leaving it out:
    the sender's own setting then decides; and when the sender's setting is
    true, no per-call value changes what is submitted. The same holds for
    [sendMemoOnly]. *)
Theorem skipPreflight_is_never_switched_off :
  (forall net fields n message recipient keypair conn level,
     sendMessage net fields n
       {| mc_message := message; mc_recipientAddress := recipient;
          mc_senderKeypair := keypair; mc_connection := conn;
          mc_commitment := level; mc_skipPreflight := Some false |}
     = sendMessage net fields n
       {| mc_message := message; mc_recipientAddress := recipient;
          mc_senderKeypair := keypair; mc_connection := conn;
          mc_commitment := level; mc_skipPreflight := None |})
  /\
  (forall net fields n message recipient keypair conn level skip,
     sc_skipPreflight (this_config fields) = true ->
     sendMessage net fields n
       {| mc_message := message; mc_recipientAddress := recipient;
          mc_senderKeypair := keypair; mc_connection := conn;
          mc_commitment := level; mc_skipPreflight := skip |}
     = sendMessage net fields n
       {| mc_message := message; mc_recipientAddress := recipient;
          mc_senderKeypair := keypair; mc_connection := conn;
          mc_commitment := level; mc_skipPreflight := None |})
  /\
  (forall net fields n message keypair conn level,
     sendMemoOnly net fields n
       {| memo_message := message; memo_senderKeypair := keypair;
          memo_connection := conn; memo_commitment := level;
          memo_skipPreflight := Some false |}
     = sendMemoOnly net fields n
       {| memo_message := message; memo_senderKeypair := keypair;
          memo_connection := conn; memo_commitment := level;
          memo_skipPreflight := None |})
  /\
  (forall net fields n message keypair conn level skip,
     sc_skipPreflight (this_config fields) = true ->
     sendMemoOnly net fields n
       {| memo_message := message; memo_senderKeypair := keypair;
          memo_connection := conn; memo_commitment := level;
          memo_skipPreflight := skip |}
     = sendMemoOnly net fields n
       {| memo_message := message; memo_senderKeypair := keypair;
          memo_connection := conn; memo_commitment := level;
          memo_skipPreflight := None |}).
Proof.
  split_and!.
  - done.
  - intros net fields n message recipient keypair conn level skip Hskip.
    unfold sendMessage; simpl. by rewrite Hskip, !orb_true_r.
  - done.
  - intros net fields n message keypair conn level skip Hskip.
    unfold sendMemoOnly; simpl. by rewrite Hskip, !orb_true_r.
Qed.

(** ** fileUtils.ts: the sample file read back *)

Lemma recipientLines_sampleContent : recipientLines sampleContent = [].
Proof. vm_compute. reflexivity. Qed.

(** X13. [createSampleRecipientsFile] writes [sampleContent] and nothing
    else, and a file that holds this text is no valid recipients file:
    [readRecipientsFile] finds no address in it, and
    [sendMessagesFromFile] on it invokes no operation. *)
Theorem sample_file_has_no_recipients :
  (forall writeFile filePath,
     createSampleRecipientsFile writeFile filePath
     = writeFile filePath sampleContent)
  /\
  (forall fs filePath,
     access fs filePath = Fulfilled tt ->
     readFile fs filePath = Fulfilled sampleContent ->
     readRecipientsFile fs filePath =
     Fulfilled {| isValid := false;
                  addresses := [];
                  validAddresses := [];
                  invalidAddresses := [];
                  fv_error :=
                    Some ("No valid addresses found in '" ++ filePath
                          ++ "'. File is empty or contains only comments.") |})
  /\
  (forall fs this config st,
     access fs (fr_recipientsFile config) = Fulfilled tt ->
     readFile fs (fr_recipientsFile config) = Fulfilled sampleContent ->
     sendMessagesFromFile fs this config st =
     (Normal {| totalSent := 0; totalFailed := 0; results := [];
                overallSuccess := false |}, st)).
Proof.
  assert (Hread : forall fs filePath,
     access fs filePath = Fulfilled tt ->
     readFile fs filePath = Fulfilled sampleContent ->
     readRecipientsFile fs filePath =
     Fulfilled {| isValid := false; addresses := []; validAddresses := [];
                  invalidAddresses := [];
                  fv_error :=
                    Some ("No valid addresses found in '" ++ filePath
                          ++ "'. File is empty or contains only comments.") |}).
  { intros fs filePath Haccess Hfile.
    unfold readRecipientsFile, checkRecipientsFile.
    cbn -[recipientLines sampleContent String.append].
    rewrite Haccess. cbn -[recipientLines sampleContent String.append].
    rewrite Hfile. cbn -[recipientLines sampleContent String.append].
    by rewrite recipientLines_sampleContent. }
  split_and!.
  - intros writeFile filePath. unfold createSampleRecipientsFile; simpl.
    by destruct (writeFile filePath sampleContent) as [[]|e].
  - exact Hread.
  - intros fs this config st Haccess Hfile.
    unfold sendMessagesFromFile; simpl. by rewrite (Hread _ _ Haccess Hfile).
Qed.

(** ** defaultExample.ts and index.ts *)

Lemma callSendMessage_newSender net fields config st :
  exists answer,
    callSendMessage (SolanaMessageSender net fields) config st =
    (Normal answer, countCall (recordEvent (SendMessageCall config) st)).
Proof.
  unfold callSendMessage; simpl.
  destruct (sendMessage_cases net fields (st_calls st) config)
    as [[sig ->]|[e ->]]; simpl; eauto.
Qed.

Lemma callSendMemoOnly_newSender net fields config st :
  exists answer,
    callSendMemoOnly (SolanaMessageSender net fields) config st =
    (Normal answer, countCall (recordEvent (SendMemoOnlyCall config) st)).
Proof.
  unfold callSendMemoOnly; simpl.
  destruct (sendMemoOnly_cases net fields (st_calls st) config)
    as [[sig ->]|[e ->]]; simpl; eauto.
Qed.

Lemma defaultExample_cases :
  forall env st,
    (exists st',
       defaultExample env st = (Normal (Exited 1), st') /\
       st_trace st' = (st_trace st ++ countdown)%list /\
       st_calls st' = st_calls st)
    \/
    (exists st' senderKeypair recipientAddress,
       defaultExample env st = (Normal Returned, st') /\
       toPublicKey exampleRecipient = Fulfilled recipientAddress /\
       st_trace st' =
         (st_trace st ++ countdown
          ++ [ SendMessageCall (exampleMessageConfig senderKeypair recipientAddress);
               SendMemoOnlyCall (exampleMemoConfig senderKeypair) ])%list /\
       st_calls st' = S (S (st_calls st))).
Proof.
  intros env st. unfold defaultExample, newSenderFields.
  set (net := env_network env).
  cbn -[toPublicKey callSendMessage callSendMemoOnly SolanaMessageSender
         loadKeypairFromPrivateKey loadKeypairFromFile].
  set (st5 := recordEvent _ (recordEvent _ (recordEvent _ (recordEvent _
                (recordEvent _ st))))).
  assert (Htrace5 : st_trace st5 = (st_trace st ++ countdown)%list).
  { unfold st5, countdown; simpl. by rewrite <- !app_assoc. }
  assert (Hcalls5 : st_calls st5 = st_calls st) by done.
  clearbody st5.
  destruct (env_newConnection env _ _) as [conn|e];
    cbn -[toPublicKey callSendMessage callSendMemoOnly SolanaMessageSender
         loadKeypairFromPrivateKey loadKeypairFromFile];
    [|left; by exists st5].
  set (fields := {| this_connection := conn; this_config := env_config env |}).
  destruct (truthyString (sc_privateKey (env_config env))) as [privateKey|];
    [ destruct (loadKeypairFromPrivateKey (env_platform env) privateKey) as [kp|e]
    | destruct (truthyString (sc_walletPath (env_config env))) as [walletPath|];
      [ destruct (loadKeypairFromFile (env_platform env) (Some walletPath)) as [kp|e]
      | set (kp := env_generateKeypair env) ] ];
    cbn -[toPublicKey callSendMessage callSendMemoOnly SolanaMessageSender
         loadKeypairFromPrivateKey loadKeypairFromFile];
    try (left; by exists st5);
    (destruct (env_getBalance env _ (keypairPublicKey kp)) as [balance|e];
     cbn -[toPublicKey callSendMessage callSendMemoOnly SolanaMessageSender
         loadKeypairFromPrivateKey loadKeypairFromFile];
     [|left; by exists st5]);
    (destruct (toPublicKey exampleRecipient) as [recipient|e] eqn:Hrecipient;
     cbn -[toPublicKey callSendMessage callSendMemoOnly SolanaMessageSender
         loadKeypairFromPrivateKey loadKeypairFromFile];
     [|left; by exists st5]);
    destruct (callSendMessage_newSender net fields
                (exampleMessageConfig kp recipient) st5) as [answer Hsend];
    unfold exampleMessageConfig in Hsend; rewrite Hsend;
    match goal with
    | |- context [callSendMemoOnly ?s ?c ?st0] =>
        destruct (callSendMemoOnly_newSender net fields c st0) as [answer' Hmemo];
        rewrite Hmemo
    end;
    right; eexists _, kp, recipient;
    (split_and!; [done|done| |simpl; by rewrite Hcalls5]);
    simpl; rewrite Htrace5, <- !app_assoc; done.
Qed.

(** X14. The default example never throws. It first sets five timers of one
    second; then either it exits with code 1 having invoked no operation
    (the keypair could not be loaded, the balance could not be read, or the
    example recipient was refused), or it invokes [sendMessage] and then
    [sendMemoOnly], once each, and returns: a failed message does not keep
    the memo from being sent. *)
Theorem defaultExample_outcomes :
  forall env st,
    (exists st',
       defaultExample env st = (Normal (Exited 1), st') /\
       st_trace st' = (st_trace st ++ countdown)%list /\
       st_calls st' = st_calls st)
    \/
    (exists st' senderKeypair recipientAddress,
       defaultExample env st = (Normal Returned, st') /\
       toPublicKey exampleRecipient = Fulfilled recipientAddress /\
       st_trace st' =
         (st_trace st ++ countdown
          ++ [ SendMessageCall (exampleMessageConfig senderKeypair recipientAddress);
               SendMemoOnlyCall (exampleMemoConfig senderKeypair) ])%list /\
       st_calls st' = S (S (st_calls st))).
Proof.
  intros env st.
  destruct (defaultExample_cases env st)
    as [(st' & Hrun & Htrace & Hcalls)
       |(st' & senderKeypair & recipientAddress & Hrun & Hkey & Htrace & Hcalls)].
  - left. by exists st'.
  - right. by exists st', senderKeypair, recipientAddress.
Qed.

(** ** index.ts: the options come from the arguments *)

Lemma splitOn_cons sep s : exists piece pieces, splitOn sep s = piece :: pieces.
Proof.
  induction s as [|c s (piece & pieces & IH)]; simpl; [eauto|].
  destruct (Ascii.eqb c sep); [eauto|]. rewrite IH. eauto.
Qed.

Lemma splitOn_no_sep sep s piece :
  In piece (splitOn sep s) -> ~ In sep (chars piece).
Proof.
  revert piece. induction s as [|c s IH]; simpl; intros piece.
  - intros [<-|[]]. simpl. tauto.
  - destruct (Ascii.eqb c sep) eqn:Hc.
    + intros [<-|Hin]; [simpl; tauto|by apply IH].
    + destruct (splitOn_cons sep s) as (first & pieces & Hs). rewrite Hs in *.
      intros [<-|Hin].
      * simpl. intros [Heq|Hin]; [by apply Ascii.eqb_neq in Hc|].
        apply (IH first); [by left|done].
      * apply IH. by right.
Qed.

Lemma commaList_clean value : Forall cleanPiece (commaList value).
Proof.
  unfold commaList. destruct (truthyString value) as [text|]; [|done].
  apply Forall_forall. intros piece [raw [<- Hraw]]%list_elem_of_In%in_map_iff.
  split; [apply trim_idem|].
  intros Hin%chars_trim. by apply (splitOn_no_sep comma text raw).
Qed.

Lemma head_In {A} (l : list A) x : head l = Some x -> In x l.
Proof. destruct l; [done|]. intros [= ->]. by left. Qed.

Lemma In_next {A} (rest : list A) x :
  In x (match rest with [] => rest | _ :: after => after end) -> In x rest.
Proof. destruct rest; [done|]. by right. Qed.

Lemma FromArgs_trans args args' before mid after :
  (forall x, In x args' -> In x args) ->
  FromArgs args before mid -> FromArgs args' mid after ->
  FromArgs args before after.
Proof.
  intros Hsub (a1 & a2 & a3 & a4 & a5 & a6 & a7 & a8)
    (b1 & b2 & b3 & b4 & b5 & b6 & b7 & b8).
  unfold FromArgs. split_and!.
  - intros Hb. destruct (b1 Hb) as [Hm|Hin]; [by apply a1|right; by apply Hsub].
  - intros Hb. destruct (b2 Hb) as [Hm|Hin]; [by apply a2|right; by apply Hsub].
  - intros Hb. destruct (b3 Hb) as [Hm|Hin]; [by apply a3|right; by apply Hsub].
  - intros x Hb. destruct (b4 x Hb) as [Hm|Hin]; [by apply a4|right; by apply Hsub].
  - intros x Hb. destruct (b5 x Hb) as [Hm|Hin]; [by apply a5|right; by apply Hsub].
  - intros x Hb. destruct (b6 x Hb) as [Hm|[Hin Hc]]; [by apply a6|].
    right. split; [by apply Hsub|done].
  - intros x Hb. destruct (b7 x Hb) as [Hm|[Hin Hc]]; [by apply a7|].
    right. split; [by apply Hsub|done].
  - intros x Hb. destruct (b8 x Hb) as [Hm|Hin]; [by apply a8|right; by apply Hsub].
Qed.

(** One case of the [switch]: what it adds to the options was given in
    the arguments at hand. *)
Ltac switch_case Hhead Hclean :=
  unfold FromArgs; simpl; split_and!; intros; simplify_eq;
  first [ by left
        | right; first [ by left
                       | right; by apply Hhead
                       | split; [by left|exact Hclean] ] ].

Lemma parseCliArgsFrom_FromArgs parseInt n : forall args before after,
  length args <= n ->
  parseCliArgsFrom parseInt args before = ParsedOptions after ->
  FromArgs args before after.
Proof.
  induction n as [|n IH]; intros [|key rest] before after Hlen; simpl in *;
    try lia;
    try (intros [= <-]; unfold FromArgs; split_and!; intros; by left).
  pose proof (commaList_clean (head rest)) as Hclean.
  pose proof (head_In rest) as Hhead.
  assert (Hnext : forall x : string,
            In x (match rest with [] => rest | _ :: after => after end) ->
            In x (key :: rest)) by (intros x Hx; right; by apply In_next).
  assert (Hrest : forall x : string, In x rest -> In x (key :: rest))
    by (intros x Hx; by right).
  assert (Hlen' : length (match rest with [] => rest | _ :: after => after end) <= n)
    by (destruct rest; simpl in *; lia).
  assert (Hlen'' : length rest <= n) by lia.
  repeat match goal with
         | |- context [if ?b then _ else _] => destruct b eqn:?
         end;
    try done;
    repeat match goal with
           | Hb : (_ || _) = true |- _ => apply orb_true_iff in Hb as [Hb|Hb]
           | Hb : String.eqb _ _ = true |- _ => apply String.eqb_eq in Hb
           end;
    intros Hparse; apply IH in Hparse; try done;
    (eapply FromArgs_trans; [| |exact Hparse]; [done|]);
    switch_case Hhead Hclean.
Qed.

(** ** index.ts: runCli *)

Lemma Post_ret {A} (a : A) (Q : A -> Prop) : Q a -> Post (ret a) Q.
Proof. intros Ha st. exists st. left. by exists a. Qed.

Lemma Post_bind {A B} (c : M A) (k : A -> M B) (Q : B -> Prop) :
  Post c (fun _ => True) -> (forall a, Post (k a) Q) -> Post (bind c k) Q.
Proof.
  intros Hc Hk st. simpl.
  destruct (Hc st) as [st1 [(a & -> & _)|(e & ->)]]; [apply Hk|].
  exists st1. right. by exists e.
Qed.

Lemma Post_await {A} (p : Settled A) : Post (await p) (fun _ => True).
Proof.
  intros st. exists st. destruct p as [a|e]; simpl; [left|right]; eauto.
Qed.

Lemma Post_sendBulkMessages this config :
  Post (sendBulkMessages this config) (fun _ => True).
Proof. intros st. rewrite sendBulkMessages_eq. eexists. left. eauto. Qed.

Lemma Post_sendBulkMemoOnly this config :
  Post (sendBulkMemoOnly this config) (fun _ => True).
Proof. intros st. rewrite sendBulkMemoOnly_eq. eexists. left. eauto. Qed.

Lemma Post_callSendMessage this config :
  Post (callSendMessage this config) (fun _ => True).
Proof.
  intros st. eexists. unfold callSendMessage.
  destruct (sendMessageMethod this (st_calls st) config); simpl; [left|right]; eauto.
Qed.

Lemma Post_callSendMemoOnly this config :
  Post (callSendMemoOnly this config) (fun _ => True).
Proof.
  intros st. eexists. unfold callSendMemoOnly.
  destruct (sendMemoOnlyMethod this (st_calls st) config); simpl; [left|right]; eauto.
Qed.

Lemma tryCatch_Post {A} (c : M A) (x : A) (Q : A -> Prop) st :
  Post c Q -> Q x ->
  exists a st', tryCatch c (fun _ => ret x) st = (Normal a, st') /\ Q a.
Proof.
  intros Hc Hx. simpl.
  destruct (Hc st) as [st1 [(a & -> & Ha)|(e & ->)]]; eauto.
Qed.

(** Steps through a body made of [bind], [ret], [await], the calls of the
    sender and case distinctions. *)
Ltac post_steps :=
  repeat first
    [ apply Post_ret; done
    | apply Post_await
    | apply Post_sendBulkMessages
    | apply Post_sendBulkMemoOnly
    | apply Post_callSendMessage
    | apply Post_callSendMemoOnly
    | apply Post_bind; [|intros ?]
    | match goal with
      | |- Post (match ?x with _ => _ end) _ => destruct x
      | |- Post (if ?b then _ else _) _ => destruct b
      end ].

Lemma parseCliArgsFrom_help parseInt n : forall args options,
  length args <= n ->
  parseCliArgsFrom parseInt args options = HelpShown ->
  In "--help" args \/ In "-h" args.
Proof.
  induction n as [|n IH]; intros [|key rest] options Hlen; simpl in *;
    try lia; try done.
  assert (Hnext : forall x : string,
            In x (match rest with [] => rest | _ :: after => after end) ->
            In x rest) by apply In_next.
  assert (Hlen' : length (match rest with [] => rest | _ :: after => after end) <= n)
    by (destruct rest; simpl in *; lia).
  assert (Hlen'' : length rest <= n) by lia.
  repeat match goal with
         | |- context [if ?b then _ else _] => destruct b eqn:?
         end;
    try (intros Hparse; apply IH in Hparse as [Hin|Hin]; [|done..];
         auto using In_next);
    try (intros Hparse; apply IH in Hparse as [Hin|Hin]; [| |done];
         auto using In_next).
  intros _.
  match goal with
  | Hb : (_ || _) = true |- _ =>
      apply orb_true_iff in Hb as [->%String.eqb_eq| ->%String.eqb_eq]; auto
  end.
Qed.

(** X15. Whatever [parseCliArgs] puts into the options was given on the
    command line: a flag is set only if it occurs among the arguments, a
    message or recipient is one of the arguments, a list of recipients or
    messages consists of trimmed, comma-free pieces and needs its option
    among the arguments, and so does a delay. The help is shown only if
    [--help] or [-h] occurs. *)
Theorem parseCliArgs_reads_the_arguments :
  forall parseInt args,
    match parseCliArgs parseInt args with
    | ParsedOptions options =>
        (opt_bulk options = true -> In "--bulk" args) /\
        (opt_memoOnly options = true -> In "--memo-only" args) /\
        (opt_continueOnError options = true -> In "--continue-on-error" args) /\
        (forall message, opt_message options = Some message -> In message args) /\
        (forall recipient,
           opt_recipient options = Some recipient -> In recipient args) /\
        (forall recipients, opt_recipients options = Some recipients ->
           In "--recipients" args /\ Forall cleanPiece recipients) /\
        (forall messages, opt_messages options = Some messages ->
           In "--messages" args /\ Forall cleanPiece messages) /\
        (forall delay, opt_delay options = Some delay -> In "--delay" args)
    | HelpShown => In "--help" args \/ In "-h" args
    end.
Proof.
  intros parseInt args. unfold parseCliArgs.
  destruct (parseCliArgsFrom parseInt args noOptions) as [options|] eqn:Hparse.
  - apply (parseCliArgsFrom_FromArgs parseInt (length args)) in Hparse; [|done].
    destruct Hparse as (a1 & a2 & a3 & a4 & a5 & a6 & a7 & a8).
    split_and!.
    + intros Hb. by destruct (a1 Hb).
    + intros Hb. by destruct (a2 Hb).
    + intros Hb. by destruct (a3 Hb).
    + intros x Hb. by destruct (a4 x Hb).
    + intros x Hb. by destruct (a5 x Hb).
    + intros x Hb. by destruct (a6 x Hb).
    + intros x Hb. by destruct (a7 x Hb).
    + intros x Hb. by destruct (a8 x Hb).
  - by apply (parseCliArgsFrom_help parseInt (length args)) in Hparse.
Qed.

Lemma runCli_message_mode env args options st :
  parseCliArgs (env_parseInt env) args = ParsedOptions options ->
  messageMode options = true ->
  exists st', runCli env args st = (Normal Returned, st').
Proof.
  intros Hparse Hmode. unfold runCli. rewrite Hparse.
  unfold messageMode in Hmode. rewrite Hmode.
  match goal with
  | |- context [tryCatch ?c ?h] =>
      destruct (tryCatch_Post c Returned (fun exit => exit = Returned) st)
        as (exit & st' & Hrun & ->); [|done|by exists st']
  end.
  post_steps.
Qed.

(** X16. [runCli] never throws. It ends in [process.exit(0)] exactly when
    the help was asked for, and then nothing has been sent; it ends in
    [process.exit(1)] only out of the default example; in the mode that
    sends what the command line asks for it always returns, also when the
    keypair cannot be loaded, an address is refused or an operation fails. *)
Theorem runCli_outcomes :
  forall env args st, exists exit st',
    runCli env args st = (Normal exit, st') /\
    match parseCliArgs (env_parseInt env) args with
    | HelpShown => exit = Exited 0 /\ st' = st
    | ParsedOptions options =>
        if messageMode options then exit = Returned
        else defaultExample env st = (Normal exit, st') /\
             (exit = Returned \/ exit = Exited 1)
    end.
Proof.
  intros env args st.
  destruct (parseCliArgs (env_parseInt env) args) as [options|] eqn:Hparse.
  - destruct (messageMode options) eqn:Hmode.
    + destruct (runCli_message_mode env args options st Hparse Hmode) as [st' Hrun].
      by exists Returned, st'.
    + unfold runCli. rewrite Hparse. unfold messageMode in Hmode. rewrite Hmode.
      destruct (defaultExample_cases env st)
        as [(st' & Hrun & _)|(st' & kp & recipient & Hrun & _)];
        rewrite Hrun; eexists _, _; eauto.
  - unfold runCli. rewrite Hparse. by eexists _, _.
Qed.

Lemma cliRecipientAddresses_spec recipients : forall keys,
  match cliRecipientAddresses recipients keys with
  | Some all =>
      all = (keys ++ omap acceptedKey recipients)%list /\
      length (omap acceptedKey recipients) = length recipients
  | None => exists r, In r recipients /\ acceptedKey r = None
  end.
Proof.
  induction recipients as [|addr rest IH]; intros keys.
  - simpl. by rewrite app_nil_r.
  - cbn [cliRecipientAddresses].
    assert (Hkey : acceptedKey addr =
                   match toPublicKey addr with
                   | Fulfilled publicKey => Some publicKey
                   | Rejected _ => None
                   end) by reflexivity.
    rewrite omap_acceptedKey_cons.
    destruct (toPublicKey addr) as [publicKey|e]; rewrite ?Hkey.
    + specialize (IH (keys ++ [publicKey])%list).
      destruct (cliRecipientAddresses rest _) as [all|].
      * destruct IH as [-> Hlen]. rewrite <- app_assoc. simpl. by rewrite <- Hlen.
      * destruct IH as (r & Hin & Hr). exists r. split; [by right|done].
    + exists addr. split; [by left|done].
Qed.

Lemma runCli_bulk_messages env args st options message recipients :
  parseCliArgs (env_parseInt env) args = ParsedOptions options ->
  truthyString (opt_message options) = Some message ->
  opt_memoOnly options = false ->
  opt_recipients options = Some recipients ->
  runCli env args st =
  match newSender env with
  | Rejected _ => (Normal Returned, st)
  | Fulfilled messageSender =>
      match cliKeypair env with
      | Rejected _ => (Normal Returned, st)
      | Fulfilled senderKeypair =>
          match recipients with
          | [] => (Normal Returned, st)
          | _ :: _ =>
              match cliRecipientAddresses recipients [] with
              | None => (Normal Returned, st)
              | Some recipientAddresses =>
                  (Normal Returned,
                   (sendBulkMessages messageSender
                      (cliBulkConfig options message recipientAddresses
                         senderKeypair)
                      st).2)
              end
          end
      end
  end.
Proof.
  intros Hparse Hmessage Hmemo Hrecipients.
  unfold runCli, cliKeypair. rewrite Hparse, Hmessage, Hmemo, Hrecipients.
  cbn -[sendBulkMessages cliRecipientAddresses newSender
         loadKeypairFromPrivateKey loadKeypairFromFile].
  rewrite orb_true_r.
  destruct (newSender env) as [messageSender|e];
    cbn -[sendBulkMessages cliRecipientAddresses
          loadKeypairFromPrivateKey loadKeypairFromFile]; [|done].
  destruct (truthyString (sc_privateKey (env_config env))) as [privateKey|];
    [ destruct (loadKeypairFromPrivateKey (env_platform env) privateKey) as [kp|e]
    | destruct (loadKeypairFromFile (env_platform env) (sc_walletPath (env_config env)))
        as [kp|e] ];
    cbn -[sendBulkMessages cliRecipientAddresses
         loadKeypairFromPrivateKey loadKeypairFromFile]; try done;
    (destruct recipients as [|r rest]; [done|]);
    (destruct (cliRecipientAddresses (r :: rest) []) as [keys|]; [|done]);
    cbn -[sendBulkMessages]; fold (cliBulkConfig options message keys kp);
    by destruct (sendBulkMessages_normal messageSender
                   (cliBulkConfig options message keys kp) st) as (result & st' & ->).
Qed.

Lemma newSender_cases env :
  match env_newConnection env (sc_rpcUrl (env_config env))
          (sc_commitment (env_config env)) with
  | Fulfilled connection =>
      newSender env =
      Fulfilled (SolanaMessageSender (env_network env)
                   {| this_connection := connection;
                      this_config := env_config env |})
  | Rejected e => newSender env = Rejected e
  end.
Proof.
  unfold newSender, newSenderFields; simpl.
  by destruct (env_newConnection env _ _).
Qed.

Lemma Forall2_acceptedKey (recipients : list string) keys :
  Forall2 (fun r key => newPublicKey r = Fulfilled key) recipients keys ->
  omap acceptedKey recipients = keys /\
  forall r, In r recipients -> acceptedKey r <> None.
Proof.
  induction 1 as [|r key rest keys Hr _ [IH Hall]]; [done|].
  rewrite omap_acceptedKey_cons, acceptedKey_newPublicKey, Hr, IH.
  split; [done|]. intros r' [<-|Hin]; [|by apply Hall].
  by rewrite acceptedKey_newPublicKey, Hr.
Qed.

(** X17. A bulk send from the command line is all or nothing: with a
    message and a list of recipients (and no [--memo-only]), [runCli] sends
    nothing at all when the connection of the sender cannot be made (the
    constructor throws), when one of the recipients is no address, when the
    list is empty or when the keypair cannot be loaded. Otherwise it is one
    run of [sendBulkMessages] of the sender made with the configured
    endpoint, over the keys of all the recipients in the order given, with
    the delay of [--delay] and with [continueOnError] true or false as
    [--continue-on-error] was given or not. *)
Theorem runCli_bulk_is_all_or_nothing :
  forall env args st options message recipients,
    parseCliArgs (env_parseInt env) args = ParsedOptions options ->
    truthyString (opt_message options) = Some message ->
    opt_memoOnly options = false ->
    opt_recipients options = Some recipients ->
    ((exists e,
        env_newConnection env (sc_rpcUrl (env_config env))
          (sc_commitment (env_config env)) = Rejected e) ->
     runCli env args st = (Normal Returned, st)) /\
    ((exists r e, In r recipients /\ newPublicKey r = Rejected e) ->
     runCli env args st = (Normal Returned, st)) /\
    ((exists e, cliKeypair env = Rejected e) ->
     runCli env args st = (Normal Returned, st)) /\
    (recipients = [] -> runCli env args st = (Normal Returned, st)) /\
    (forall connection senderKeypair keys,
       env_newConnection env (sc_rpcUrl (env_config env))
         (sc_commitment (env_config env)) = Fulfilled connection ->
       cliKeypair env = Fulfilled senderKeypair ->
       recipients <> [] ->
       Forall2 (fun r key => newPublicKey r = Fulfilled key) recipients keys ->
       exists result st',
         sendBulkMessages
           (SolanaMessageSender (env_network env)
              {| this_connection := connection; this_config := env_config env |})
           {| message := message;
              recipientAddresses := keys;
              senderKeypair := senderKeypair;
              connection := None;
              commitment := None;
              skipPreflight := None;
              delayBetweenTx := opt_delay options;
              continueOnError := Some (opt_continueOnError options) |}
           st = (Normal result, st') /\
         runCli env args st = (Normal Returned, st')).
Proof.
  intros env args st options message recipients Hparse Hmessage Hmemo Hrecipients.
  rewrite (runCli_bulk_messages env args st options message recipients)
    by done.
  pose proof (cliRecipientAddresses_spec recipients []) as Hkeys.
  pose proof (newSender_cases env) as Hnew.
  split_and!.
  - intros [e He]. rewrite He in Hnew. by rewrite Hnew.
  - intros (r & e & Hin & Hbad).
    destruct (newSender env); [|done].
    destruct (cliKeypair env); [|done]. destruct recipients as [|r0 recipients]; [done|].
    destruct (cliRecipientAddresses _ _) as [keys|]; [|done].
    destruct Hkeys as [_ Hlen].
    assert (Hlt : length (omap acceptedKey (r0 :: recipients))
                  < length (r0 :: recipients)); [|lia].
    clear Hlen Hrecipients. induction (r0 :: recipients) as [|x xs IH]; [done|].
    rewrite omap_acceptedKey_cons. destruct Hin as [->|Hin].
    + rewrite acceptedKey_newPublicKey, Hbad. simpl.
      pose proof (length_omap_filter xs). lia.
    + specialize (IH Hin). destruct (acceptedKey x); simpl; lia.
  - intros [e ->]. by destruct (newSender env).
  - intros ->. destruct (newSender env); [|done]. by destruct (cliKeypair env).
  - intros conn senderKeypair keys Hconn -> Hne Hall.
    rewrite Hconn in Hnew. rewrite Hnew.
    apply Forall2_acceptedKey in Hall as [Hall Hnone].
    destruct recipients as [|r rest]; [done|].
    destruct (cliRecipientAddresses (r :: rest) []) as [keys'|].
    + destruct Hkeys as [-> _]. rewrite app_nil_l, Hall.
      destruct (sendBulkMessages_normal
                  (SolanaMessageSender (env_network env)
                     {| this_connection := conn; this_config := env_config env |})
                  (cliBulkConfig options message keys senderKeypair) st)
        as (result & st' & Hrun).
      exists result, st'. unfold cliBulkConfig in Hrun. rewrite Hrun.
      unfold cliBulkConfig. rewrite Hrun. done.
    + destruct Hkeys as (bad & Hin & Hbad). by destruct (Hnone bad Hin).
Qed.

Lemma parseCliArgsFrom_message parseInt n : forall args before after message,
  length args <= n ->
  parseCliArgsFrom parseInt args before = ParsedOptions after ->
  opt_message after = Some message ->
  opt_message before = Some message \/ In "--message" args \/ In "-m" args.
Proof.
  induction n as [|n IH]; intros [|key rest] before after message Hlen;
    simpl in *; try lia; try (intros [= <-]; by left).
  assert (Hlen' : length (match rest with [] => rest | _ :: after => after end) <= n)
    by (destruct rest; simpl in *; lia).
  assert (Hlen'' : length rest <= n) by lia.
  repeat match goal with
         | |- context [if ?b then _ else _] => destruct b eqn:?
         end;
    try done;
    intros Hparse Hmessage;
    eapply IH in Hparse; try exact Hmessage; try done;
    simpl in Hparse;
    try (destruct Hparse as [Hbefore|[Hin|Hin]];
         [by left|right; left; right; by auto using In_next
         |right; right; right; by auto using In_next]).
  match goal with
  | Hb : (_ || _) = true |- _ =>
      apply orb_true_iff in Hb as [->%String.eqb_eq| ->%String.eqb_eq]
  end; right; [left|right]; by left.
Qed.

(** X18. Unless one of [--message], [-m], [--messages], [--bulk], [--help]
    and [-h] is among the arguments, [runCli] runs the default example,
    whatever else is given: a list of recipients, a delay or [--memo-only]
    alone do not keep it from sending the example message and memo. *)
Theorem runCli_runs_the_default_example :
  forall env args st,
    ~ In "--message" args -> ~ In "-m" args -> ~ In "--messages" args ->
    ~ In "--bulk" args -> ~ In "--help" args -> ~ In "-h" args ->
    runCli env args st = defaultExample env st.
Proof.
  intros env args st Hmessage Hm Hmessages Hbulk Hhelp Hh.
  unfold runCli, parseCliArgs.
  destruct (parseCliArgsFrom (env_parseInt env) args noOptions)
    as [options|] eqn:Hparse.
  - pose proof (parseCliArgsFrom_FromArgs _ (length args) _ _ _
                  (Nat.le_refl _) Hparse) as (Hb & _ & _ & _ & _ & _ & Hms & _).
    assert (Hnone : opt_message options = None).
    { destruct (opt_message options) as [message|] eqn:Hopt; [|done].
      destruct (parseCliArgsFrom_message _ (length args) _ _ _ message
                  (Nat.le_refl _) Hparse Hopt) as [Hno|[Hin|Hin]]; done. }
    rewrite Hnone; simpl.
    destruct (opt_messages options) as [messages|] eqn:Hopt.
    { destruct (Hms messages eq_refl) as [Hno|[Hin _]]; done. }
    destruct (opt_bulk options) eqn:Hoptb; [|done].
    destruct (Hb eq_refl) as [Hno|Hin]; done.
  - apply (parseCliArgsFrom_help _ (length args)) in Hparse; [|done].
    by destruct Hparse.
Qed.

(** ** The wallet loaders *)

(** X19 (walletUtils.ts [loadKeypairFromFile], config.ts
    [loadWalletFromFile]): the loader reads one file, the given path or,
    when the path is absent or empty, [homedir/.config/solana/id.json],
    with the first "~" replaced by the home directory.  It returns a keypair
    exactly when the file was read, parsed as JSON, turned into bytes and
    accepted by [Keypair.fromSecretKey]; every failure is rethrown as an
    [Error] whose message starts with "Failed to load keypair from file: ",
    and a failure to read or to parse is wrapped twice, the inner [Error]
    naming the path before the "~" was replaced. *)
Theorem loadKeypairFromFile_outcomes (p : Platform) (walletPath : option string) :
  let path :=
    match walletPath with
    | Some (String c rest) => String c rest
    | _ => joinPath p [homedir p; ".config"; "solana"; "id.json"]
    end in
  let file := readFileSync p (replaceFirst p path "~" (homedir p)) in
  let wallet (cause : Thrown) :=
    ErrorInstance ("Failed to load wallet from " ++ path ++ ": " ++ describe p cause) in
  let rethrown (cause : Thrown) :=
    ErrorInstance ("Failed to load keypair from file: " ++ describe p cause) in
  match loadKeypairFromFile p walletPath with
  | Fulfilled keypair =>
      exists walletData secretKey bytes,
        file = Fulfilled walletData
        /\ jsonParse p walletData = Fulfilled secretKey
        /\ uint8Array p secretKey = Fulfilled bytes
        /\ fromSecretKey p bytes = Fulfilled keypair
  | Rejected error =>
      (exists cause,
         file = Rejected cause
         /\ error = rethrown (wallet cause))
      \/ (exists walletData cause,
            file = Fulfilled walletData
            /\ jsonParse p walletData = Rejected cause
            /\ error = rethrown (wallet cause))
      \/ (exists walletData secretKey cause,
            file = Fulfilled walletData
            /\ jsonParse p walletData = Fulfilled secretKey
            /\ (uint8Array p secretKey = Rejected cause
                \/ exists bytes,
                     uint8Array p secretKey = Fulfilled bytes
                     /\ fromSecretKey p bytes = Rejected cause)
            /\ error = rethrown cause)
  end.
Proof.
  intros path file wallet rethrown.
  assert (Hpath : walletPathOrDefault p walletPath = path).
  { unfold walletPathOrDefault, path. by destruct walletPath as [[|c rest]|]. }
  unfold loadKeypairFromFile, loadWalletFromFile. rewrite Hpath.
  fold file. cbn.
  destruct file as [walletData|cause] eqn:Hfile; cbn.
  - destruct (jsonParse p walletData) as [secretKey|cause] eqn:Hparse; cbn.
    + destruct (uint8Array p secretKey) as [bytes|cause] eqn:Hbytes; cbn.
      * destruct (fromSecretKey p bytes) as [keypair|cause] eqn:Hkey; cbn.
        -- by exists walletData, secretKey, bytes.
        -- right; right. exists walletData, secretKey, cause.
           repeat split; try done. right. by exists bytes.
      * right; right. exists walletData, secretKey, cause.
        repeat split; try done. by left.
    + right; left. by exists walletData, cause.
  - left. by exists cause.
Qed.

(** X20 (walletUtils.ts [loadKeypairFromPrivateKey]): the loader returns a
    keypair exactly when bs58 decoded the text and [Keypair.fromSecretKey]
    accepted the bytes; a failure of either is rethrown as an [Error] whose
    message is "Failed to load keypair from private key: " followed by the
    text of what was thrown.  No file is read. *)
Theorem loadKeypairFromPrivateKey_outcomes (p : Platform) (privateKey : string) :
  match loadKeypairFromPrivateKey p privateKey with
  | Fulfilled keypair =>
      exists secretKey,
        bs58Decode p privateKey = Fulfilled secretKey
        /\ fromSecretKey p secretKey = Fulfilled keypair
  | Rejected error =>
      exists cause,
        error = ErrorInstance
                  ("Failed to load keypair from private key: " ++ describe p cause)
        /\ (bs58Decode p privateKey = Rejected cause
            \/ exists secretKey,
                 bs58Decode p privateKey = Fulfilled secretKey
                 /\ fromSecretKey p secretKey = Rejected cause)
  end.
Proof.
  unfold loadKeypairFromPrivateKey. cbn.
  destruct (bs58Decode p privateKey) as [secretKey|cause] eqn:Hdecode; cbn.
  - destruct (fromSecretKey p secretKey) as [keypair|cause] eqn:Hkey; cbn.
    + by exists secretKey.
    + exists cause. split; first done. right. by exists secretKey.
  - exists cause. split; first done. by left.
Qed.

End Sender.

(** * Concrete runs

    Addresses are their own base58 text, and a string is an address when it
    is 32 to 44 characters long. The second operation of a run fails on the
    network; all others are confirmed. *)

Module Demo.

#[local] Instance web3 : Web3 := {|
  PublicKey := string;
  Keypair := string;
  Connection := string;
  toBase58 := fun key => key;
  keypairPublicKey := fun keypair => keypair;
  newPublicKey := fun address =>
    if (32 <=? String.length address)%nat && (String.length address <=? 44)%nat
    then Fulfilled address
    else Rejected (ErrorInstance "Invalid public key input")
|}.

Definition net : Network := {|
  getLatestBlockhash := fun n _ => Fulfilled "EkSnNWid2cvwEVnVx9aBqawnmiCNiDgp3gUdkDPTKN1N";
  sendAndConfirmTransaction := fun n _ _ _ _ =>
    if (n =? 1)%nat then Rejected (ErrorInstance "insufficient funds for rent")
    else Fulfilled ("sig" ++ String (ascii_of_nat (48 + n)) "")
|}.

Definition fields : SenderFields := {|
  this_connection := "https://api.devnet.solana.com";
  this_config := {|
    sc_rpcUrl := "https://api.devnet.solana.com";
    sc_wsUrl := "wss://api.devnet.solana.com";
    sc_network := "devnet";
    sc_commitment := confirmed;
    sc_skipPreflight := false;
    sc_walletPath := None;
    sc_privateKey := None |}
|}.

Definition sender : Sender := SolanaMessageSender net fields.

Definition alice : string := "GXVBqMZn8B55tyVv5HgqdYLDta4eQNrH3JM1JqkJNBqs".
Definition bob : string := "MemoSq4gqABAXKb96qnH8TysNcWxMyWCqXgDLGmfcHr".
Definition carol : string := "11111111111111111111111111111112".

Definition bulkConfig (delay : option Z) (continue : option bool)
    : BulkMessageConfig := {|
  message := "Hello";
  recipientAddresses := [alice; bob; carol];
  senderKeypair := alice;
  connection := None;
  commitment := None;
  skipPreflight := None;
  delayBetweenTx := delay;
  continueOnError := continue
|}.

Definition memoConfig (messages : option (list string)) (delay : option Z)
    (continue : option bool) : BulkMemoConfig := {|
  bm_message := "Hello";
  bm_messages := messages;
  bm_senderKeypair := alice;
  bm_connection := None;
  bm_commitment := None;
  bm_skipPreflight := None;
  bm_delayBetweenTx := delay;
  bm_continueOnError := continue
|}.

Definition start : State := {|
  st_calls := 0;
  st_trace := [];
  st_results := [];
  st_totalSent := 0;
  st_totalFailed := 0
|}.

(** A sender whose [sendMessage] throws at its first invocation, as a
    subclass overriding the method could. *)
Definition throwingSender : Sender := {|
  sendMessageMethod := fun n config =>
    if (n =? 0)%nat then Rejected (ErrorInstance "boom")
    else sendMessage net fields n config;
  sendMemoOnlyMethod := sendMemoOnly net fields
|}.

(** A file system with one readable file of recipients, one of which is no
    address, and nothing else. *)
Definition fs : FileSystem := {|
  access := fun path =>
    if String.eqb path "recipients.txt" then Fulfilled tt
    else Rejected (ErrorInstance "ENOENT: no such file or directory");
  readFile := fun path =>
    if String.eqb path "recipients.txt"
    then Fulfilled ("# team" ++ String newline ("  " ++ alice ++ " ")
                    ++ String newline "not-an-address" ++ String newline "")
    else Rejected (ErrorInstance "ENOENT: no such file or directory")
|}.

Definition fileConfig (path : string) : FileRecipientConfig := {|
  fr_message := "Hello";
  fr_recipientsFile := path;
  fr_senderKeypair := alice;
  fr_connection := None;
  fr_commitment := None;
  fr_skipPreflight := None;
  fr_delayBetweenTx := None;
  fr_continueOnError := None
|}.

(** Three work items, the second fails, [continueOnError = true]. *)
Example scenario_continue :
  exists st',
    sendBulkMessages sender (bulkConfig None (Some true)) start =
    (Normal {| totalSent := 2;
               totalFailed := 1;
               results :=
                 [ {| recipientAddress := alice; signature := "sig0"; success := true;
                      error := None;
                      explorerUrl :=
                        Some "https://explorer.solana.com/tx/sig0?cluster=devnet" |};
                   {| recipientAddress := bob; signature := ""; success := false;
                      error := Some "insufficient funds for rent";
                      explorerUrl := None |};
                   {| recipientAddress := carol; signature := "sig2"; success := true;
                      error := None;
                      explorerUrl :=
                        Some "https://explorer.solana.com/tx/sig2?cluster=devnet" |} ];
               overallSuccess := false |}, st').
Proof. eexists. vm_compute. reflexivity. Qed.

(** The same items with [continueOnError = false]: two entries. *)
Example scenario_stop :
  exists result st',
    sendBulkMessages sender (bulkConfig None (Some false)) start = (Normal result, st') /\
    map recipientAddress (results result) = [alice; bob] /\
    overallSuccess result = false /\
    length (st_trace st') = 2.
Proof. eexists _, _. vm_compute. done. Qed.

(** A [sendMessage] that throws is recorded by the [catch] branch of the
    loop, which sets no timer: with [continueOnError = true] the next
    operation follows at once. *)
Example thrown_operation_sets_no_timer :
  exists result st',
    sendBulkMessages throwingSender (bulkConfig (Some 500%Z) (Some true)) start
      = (Normal result, st') /\
    map success (results result) = [false; false; true] /\
    map isCall (st_trace st') = [true; true; false; true].
Proof. eexists _, _. vm_compute. done. Qed.

Example getExplorerUrl_mainnet :
  getExplorerUrl "5h" "mainnet-beta" = "https://explorer.solana.com/tx/5h".
Proof. reflexivity. Qed.

Example recipientLines_of_file :
  recipientLines ("# team" ++ String newline ("  " ++ alice ++ " ")
                  ++ String newline "not-an-address" ++ String newline "")
  = [alice; "not-an-address"].
Proof. vm_compute. reflexivity. Qed.

(** The second of three operations is the first to fail. *)
Lemma first_failure_stops_the_run_witness :
  exists result st' events,
    sendBulkMessages sender (bulkConfig None (Some false)) start
      = (Normal result, st') /\
    length (results result) = 1 + 1 /\
    st_trace st' = (st_trace start ++ events)%list /\
    callsOf events =
      map (fun r => SendMessageCall (messageConfigFor (bulkConfig None (Some false)) r))
          (take (1 + 1) (recipientAddresses (bulkConfig None (Some false)))).
Proof.
  apply (proj1 first_failure_stops_the_run sender (bulkConfig None (Some false))
           start 1 bob).
  - reflexivity.
  - reflexivity.
  - intros k r Hk Hr. destruct k as [|k]; [|lia].
    simpl in Hr. injection Hr as <-. reflexivity.
  - reflexivity.
Defined.

Lemma bulk_result_counts_witness :
  exists st',
    sendBulkMemoOnly sender (memoConfig (Some []) None None) start =
    (Normal {| totalSent := 0; totalFailed := 0; results := [];
               overallSuccess := true |}, st').
Proof.
  apply (proj2 (proj2 (proj2 bulk_result_counts)) sender
           (memoConfig (Some []) None None) start).
  reflexivity.
Defined.

Lemma counts_add_up_to_results_witness :
  exists result st',
    sendBulkMessages sender (bulkConfig None None) start = (Normal result, st') /\
    truthyBool (continueOnError (bulkConfig None None)) = false /\
    exists r, last (results result) = Some r /\ success r = false.
Proof.
  destruct (proj1 (proj2 counts_add_up_to_results) sender (bulkConfig None None) start)
    as (result & st' & Hrun & _ & _ & _ & Hshort).
  exists result, st'. split; [exact Hrun|].
  apply Hshort.
  vm_compute in Hrun. injection Hrun as <- _. simpl. lia.
Defined.

Lemma continue_on_error_covers_every_item_witness :
  exists result st',
    sendBulkMessages sender (bulkConfig None (Some true)) start = (Normal result, st') /\
    length (results result) = 3.
Proof.
  apply (proj1 continue_on_error_covers_every_item sender
           (bulkConfig None (Some true)) start).
  reflexivity.
Defined.

Lemma one_delay_between_operations_witness :
  exists result st',
    sendBulkMessages (SolanaMessageSender net fields)
        (bulkConfig (Some 500%Z) (Some true)) start
      = (Normal result, st') /\
    st_trace st' =
      (st_trace start ++
       intersperse (SetTimeout 500)
         (map (fun recipient =>
                 SendMessageCall
                   (messageConfigFor (bulkConfig (Some 500%Z) (Some true)) recipient))
            (take (length (results result))
               (recipientAddresses (bulkConfig (Some 500%Z) (Some true))))))%list.
Proof.
  apply (proj1 one_delay_between_operations net fields
           (bulkConfig (Some 500%Z) (Some true)) start 500%Z).
  - reflexivity.
  - lia.
Defined.

Lemma failed_validation_sends_nothing_witness :
  exists result,
    sendMessagesFromFile fs sender (fileConfig "recipients.txt") start
      = (Normal result, start) /\
    result = {| totalSent := 0; totalFailed := 0; results := [];
                overallSuccess := false |} /\
    overallSuccess result = false /\ totalFailed result = 0.
Proof.
  eapply (proj1 failed_validation_sends_nothing fs sender
            (fileConfig "recipients.txt") start).
  - vm_compute. reflexivity.
  - reflexivity.
Defined.

Lemma memo_only_fallback_and_sentinel_witness :
  exists result st',
    sendBulkMemoOnly sender (memoConfig None (Some 500%Z) None) start
      = (Normal result, st') /\
    st_trace st' =
      (st_trace start
       ++ [SendMemoOnlyCall
             (memoConfigFor (memoConfig None (Some 500%Z) None) "Hello")])%list /\
    st_calls st' = 1 /\
    length (results result) = 1.
Proof.
  apply (proj1 memo_only_fallback_and_sentinel sender
           (memoConfig None (Some 500%Z) None) start).
  reflexivity.
Defined.

(** ** Further concrete runs *)

(** A network that confirms everything. *)
Definition calmNet : Network := {|
  getLatestBlockhash := fun n _ => Fulfilled "EkSnNWid2cvwEVnVx9aBqawnmiCNiDgp3gUdkDPTKN1N";
  sendAndConfirmTransaction := fun n _ _ _ _ => Fulfilled "5VERv8NMvzbJMEkV8xnrLkEaWRtSz9CosKDYjCJjBRnb"
|}.

Definition calmSender : Sender := SolanaMessageSender calmNet fields.

(** A sender whose operations always throw. *)
Definition brokenSender : Sender := {|
  sendMessageMethod := fun _ _ => Rejected (ErrorInstance "socket hang up");
  sendMemoOnlyMethod := fun _ _ => Rejected OtherValue
|}.

Definition skippingFields : SenderFields := {|
  this_connection := "https://api.devnet.solana.com";
  this_config := {|
    sc_rpcUrl := "https://api.devnet.solana.com";
    sc_wsUrl := "wss://api.devnet.solana.com";
    sc_network := "devnet";
    sc_commitment := confirmed;
    sc_skipPreflight := true;
    sc_walletPath := None;
    sc_privateKey := None |}
|}.

(** A file system whose one file holds two addresses. *)
Definition goodFs : FileSystem := {|
  access := fun path => Fulfilled tt;
  readFile := fun path =>
    Fulfilled ("# team" ++ String newline alice ++ String newline carol)
|}.

(** A file system whose one file is the sample file. *)
Definition sampleFs : FileSystem := {|
  access := fun path => Fulfilled tt;
  readFile := fun path => Fulfilled sampleContent
|}.

(** A platform with one wallet file, at the default place. *)
Definition platform : Platform := {|
  SecretKey := string;
  Json := string;
  homedir := "/home/demo";
  joinPath := String.concat "/";
  replaceFirst := fun s pattern replacement =>
    match s with
    | String c rest =>
        if String.eqb (String c "") pattern then replacement ++ rest else s
    | EmptyString => s
    end;
  readFileSync := fun path =>
    if String.eqb path "/home/demo/.config/solana/id.json"
    then Fulfilled "[12,34,56]"
    else Rejected (ErrorInstance "ENOENT: no such file or directory");
  jsonParse := fun text => Fulfilled text;
  uint8Array := fun value => Fulfilled value;
  bs58Decode := fun text => Rejected (ErrorInstance "Non-base58 character");
  fromSecretKey := fun bytes => Fulfilled alice;
  describe := fun error =>
    match error with
    | ErrorInstance message => "Error: " ++ message
    | OtherValue => "undefined"
    end
|}.

(** [new Connection(endpoint, commitment)] of the SDK refuses an endpoint
    that does not start with http: or https:. *)
Definition newConnection (endpoint : string) (level : Commitment) : Settled string :=
  if startsWith "http:" endpoint || startsWith "https:" endpoint
  then Fulfilled endpoint
  else Rejected (ErrorInstance "Endpoint URL must start with `http:` or `https:`.").

Definition cliEnv : CliEnv := {|
  env_config := this_config fields;
  env_newConnection := newConnection;
  env_network := net;
  env_getBalance := fun _ _ => Fulfilled 5000000%Z;
  env_platform := platform;
  env_generateKeypair := bob;
  env_parseInt := fun value =>
    match value with
    | Some "1000" => Some 1000%Z
    | Some "0" => Some 0%Z
    | _ => None
    end
|}.

Definition bulkArgs : list string :=
  [ "--message"; "Hello"; "--recipients"; alice ++ ", " ++ carol; "--delay"; "1000" ].

Definition bulkOptions : CliOptions := {|
  opt_message := Some "Hello";
  opt_recipient := None;
  opt_recipients := Some [alice; carol];
  opt_messages := None;
  opt_memoOnly := false;
  opt_bulk := false;
  opt_delay := Some 1000%Z;
  opt_continueOnError := false
|}.

Example parseCliArgs_bulkArgs :
  parseCliArgs (env_parseInt cliEnv) bulkArgs = ParsedOptions bulkOptions.
Proof. vm_compute. reflexivity. Qed.

(** A value that looks like a flag is taken as the value of the option
    before it, and an option at the end has no value. *)
Example parseCliArgs_swallows_a_flag :
  parseCliArgs (env_parseInt cliEnv) ["--message"; "--bulk"; "--delay"]
  = ParsedOptions {| opt_message := Some "--bulk"; opt_recipient := None;
                     opt_recipients := None; opt_messages := None;
                     opt_memoOnly := false; opt_bulk := false;
                     opt_delay := Some 0%Z; opt_continueOnError := false |}.
Proof. vm_compute. reflexivity. Qed.

Lemma getExplorerUrl_shape_witness :
  getExplorerUrl "5h" "devnet"
  = "https://explorer.solana.com/tx/" ++ "5h" ++ "?cluster=" ++ "devnet".
Proof.
  apply (proj1 (proj2 getExplorerUrl_shape) "5h" "devnet").
  reflexivity.
Defined.

Lemma recipientLines_line_by_line_witness :
  recipientLines ("  " ++ alice ++ " ") = keptLine ("  " ++ alice ++ " ").
Proof.
  apply (proj1 (proj2 recipientLines_line_by_line)).
  vm_compute. intuition discriminate.
Defined.

Lemma sendMessagesFromFile_on_a_valid_file_witness :
  exists validation,
    validateRecipients validation = Fulfilled tt /\
    (exists fileContent,
       access goodFs "recipients.txt" = Fulfilled tt /\
       readFile goodFs "recipients.txt" = Fulfilled fileContent /\
       addresses validation = recipientLines fileContent /\
       Forall2 (fun line publicKey => newPublicKey line = Fulfilled publicKey)
         (recipientLines fileContent) (validAddresses validation)) /\
    sendMessagesFromFile goodFs sender (fileConfig "recipients.txt") start
      = sendBulkMessages sender
          {| message := "Hello";
             recipientAddresses := validAddresses validation;
             senderKeypair := alice;
             connection := None;
             commitment := None;
             skipPreflight := None;
             delayBetweenTx := None;
             continueOnError := None |} start.
Proof.
  eexists.
  eapply (sendMessagesFromFile_on_a_valid_file goodFs sender
            (fileConfig "recipients.txt") start).
  - vm_compute. reflexivity.
  - reflexivity.
Defined.

Lemma all_operations_succeed_witness :
  exists result st',
    sendBulkMessages calmSender (bulkConfig None None) start = (Normal result, st') /\
    length (results result) = 3 /\
    totalSent result = 3 /\
    totalFailed result = 0 /\
    overallSuccess result = true /\
    Forall (fun r => success r = true) (results result).
Proof.
  apply (proj1 all_operations_succeed calmSender (bulkConfig None None) start).
  intros k recipient Hk. reflexivity.
Defined.

Lemma thrown_operations_are_recorded_without_delay_witness :
  exists result st',
    sendBulkMessages brokenSender (bulkConfig (Some 500%Z) (Some true)) start
      = (Normal result, st') /\
    st_trace st' =
      (st_trace start ++
       map (fun recipient =>
              SendMessageCall
                (messageConfigFor (bulkConfig (Some 500%Z) (Some true)) recipient))
           (take (length (results result))
              (recipientAddresses (bulkConfig (Some 500%Z) (Some true)))))%list /\
    length (results result) = 3 /\
    totalSent result = 0 /\
    forall k r, results result !! k = Some r ->
      exists recipient e,
        recipientAddresses (bulkConfig (Some 500%Z) (Some true)) !! k
          = Some recipient /\
        sendMessageMethod brokenSender (st_calls start + k)
          (messageConfigFor (bulkConfig (Some 500%Z) (Some true)) recipient)
          = Rejected e /\
        r = {| recipientAddress := toBase58 recipient;
               signature := "";
               success := false;
               error := Some match e with
                             | ErrorInstance text => text
                             | OtherValue => "Unknown error"
                             end;
               explorerUrl := None |}.
Proof.
  apply (proj1 thrown_operations_are_recorded_without_delay brokenSender
           (bulkConfig (Some 500%Z) (Some true)) start).
  intros n c. eexists. reflexivity.
Defined.

(** What the [catch] branch of the loops writes: the message of an [Error],
    and "Unknown error" for any other thrown value. *)
Example thrown_values_in_the_results :
  exists st1 st2,
    sendBulkMessages brokenSender (bulkConfig None None) start
    = (Normal {| totalSent := 0; totalFailed := 1;
                 results := [ {| recipientAddress := alice; signature := "";
                                 success := false; error := Some "socket hang up";
                                 explorerUrl := None |} ];
                 overallSuccess := false |}, st1) /\
    sendBulkMemoOnly brokenSender (memoConfig None None None) start
    = (Normal {| totalSent := 0; totalFailed := 1;
                 results := [ {| recipientAddress := "memo-only"; signature := "";
                                 success := false; error := Some "Unknown error";
                                 explorerUrl := None |} ];
                 overallSuccess := false |}, st2).
Proof. eexists _, _. vm_compute. done. Qed.

Lemma stop_on_error_records_one_failure_witness :
  exists result st',
    sendBulkMessages sender (bulkConfig None None) start = (Normal result, st') /\
    totalFailed result <= 1 /\
    forall k r, results result !! k = Some r ->
      k + 1 < length (results result) -> success r = true.
Proof.
  apply (proj1 stop_on_error_records_one_failure sender (bulkConfig None None) start).
  reflexivity.
Defined.


Lemma skipPreflight_is_never_switched_off_witness :
  sendMessage net skippingFields 0
    {| mc_message := "Hello"; mc_recipientAddress := bob;
       mc_senderKeypair := alice; mc_connection := None;
       mc_commitment := None; mc_skipPreflight := Some false |}
  = sendMessage net skippingFields 0
    {| mc_message := "Hello"; mc_recipientAddress := bob;
       mc_senderKeypair := alice; mc_connection := None;
       mc_commitment := None; mc_skipPreflight := None |}.
Proof.
  apply (proj1 (proj2 skipPreflight_is_never_switched_off)).
  reflexivity.
Defined.

Lemma sample_file_has_no_recipients_witness :
  sendMessagesFromFile sampleFs sender (fileConfig "recipients.txt") start =
  (Normal {| totalSent := 0; totalFailed := 0; results := [];
             overallSuccess := false |}, start).
Proof.
  apply (proj2 (proj2 sample_file_has_no_recipients)); reflexivity.
Defined.

Lemma runCli_bulk_is_all_or_nothing_witness :
  exists result st',
    sendBulkMessages
      (SolanaMessageSender net
         {| this_connection := "https://api.devnet.solana.com";
            this_config := this_config fields |})
      {| message := "Hello";
         recipientAddresses := [alice; carol];
         senderKeypair := alice;
         connection := None;
         commitment := None;
         skipPreflight := None;
         delayBetweenTx := Some 1000%Z;
         continueOnError := Some false |}
      start = (Normal result, st') /\
    runCli cliEnv bulkArgs start = (Normal Returned, st').
Proof.
  apply (proj2 (proj2 (proj2 (proj2
           (runCli_bulk_is_all_or_nothing cliEnv bulkArgs start bulkOptions
              "Hello" [alice; carol]
              parseCliArgs_bulkArgs eq_refl eq_refl eq_refl))))
           "https://api.devnet.solana.com" alice [alice; carol]).
  - reflexivity.
  - reflexivity.
  - discriminate.
  - repeat constructor.
Defined.

(** With an endpoint that the constructor of the connection refuses, the
    same command line sends nothing, and the default example exits with
    code 1 after its five timers. *)
Definition offlineEnv : CliEnv := {|
  env_config := {|
    sc_rpcUrl := "api.devnet.solana.com";
    sc_wsUrl := "wss://api.devnet.solana.com";
    sc_network := "devnet";
    sc_commitment := confirmed;
    sc_skipPreflight := false;
    sc_walletPath := None;
    sc_privateKey := None |};
  env_newConnection := newConnection;
  env_network := net;
  env_getBalance := fun _ _ => Fulfilled 5000000%Z;
  env_platform := platform;
  env_generateKeypair := bob;
  env_parseInt := env_parseInt cliEnv
|}.

Example runCli_without_a_connection :
  runCli offlineEnv bulkArgs start = (Normal Returned, start) /\
  exists st',
    defaultExample offlineEnv start = (Normal (Exited 1), st') /\
    st_trace st' = countdown /\ st_calls st' = 0.
Proof. split; [|eexists]; vm_compute; done. Qed.

Lemma runCli_runs_the_default_example_witness :
  runCli cliEnv ["--recipients"; alice; "--memo-only"] start
  = defaultExample cliEnv start.
Proof.
  apply runCli_runs_the_default_example; simpl; intuition discriminate.
Defined.

(** The default example on the demo network: five timers, then the message
    and the memo, although the memo (the second operation) fails. *)
Example defaultExample_run :
  exists st',
    defaultExample cliEnv start = (Normal Returned, st') /\
    map isCall (st_trace st') = [false; false; false; false; false; true; true] /\
    st_calls st' = 2.
Proof. eexists. vm_compute. done. Qed.

(** A file that starts with a byte order mark and holds an ideographic
    space: both are white space to [trim]. *)
Example recipientLines_after_a_byte_order_mark :
  recipientLines (bytes [239; 187; 191] ++ alice ++ String newline
                  (bytes [227; 128; 128] ++ carol ++ bytes [194; 160]))
  = [alice; carol].
Proof. vm_compute. reflexivity. Qed.

(** A byte above 127 that is part of a letter is no white space: the last
    byte of "à" (C3 A0) stays. *)
Example trim_keeps_a_letter :
  trim (" " ++ bytes [195; 160] ++ " ") = bytes [195; 160].
Proof. vm_compute. reflexivity. Qed.

(** A rejection of [readFile] by something that is no [Error]. *)
Example readRecipientsFile_unknown_error :
  readRecipientsFile
    {| access := fun path => Fulfilled tt; readFile := fun path => Rejected OtherValue |}
    "recipients.txt"
  = Fulfilled {| isValid := false; addresses := []; validAddresses := [];
                 invalidAddresses := [];
                 fv_error := Some "Unknown error reading recipients file" |}.
Proof. reflexivity. Qed.

End Demo.
